(** * Textosaurus: URL hover detection of the editor widget and the
      find-results tree model

    Shallow embedding of [TextEditor::mouseMoveEvent] and of the click
    notification handler installed by the constructor of [TextEditor]
    (src/gui/texteditor.cpp), and of the find-results model declared in
    src/gui/sidebars/findresultsmodel.h. *)

From Stdlib Require Import ZArith Lia Bool.
From Stdlib Require Import Strings.Byte Strings.String.
From stdpp Require Import base option list.

Local Open Scope Z_scope.

(** ** The embedded editing component

    The widget derives from [ScintillaEdit]; the handler talks to it through
    [charAt], [textRange], [indicatorClearRange], [indicatorFillRange],
    [indicSetHoverStyle] and [setIndicatorCurrent]. The component itself
    (scintilla/...) is not among the sources at hand: this module is its
    interface as far as the two handlers use it. The document is the byte
    buffer of the component (code page UTF-8). *)

Module Sci.

Definition Document := list byte.

Definition code (b : byte) : Z := Z.of_N (Byte.to_N b).

Definition bytes (s : string) : Document := list_byte_of_string s.

Definition length (doc : Document) : Z := Z.of_nat (List.length doc).

(** Modelled from the spec: [ScintillaEdit::charAt] (get-char-at) is
    missing; it gives the character at a zero-based offset of the text
    buffer. What it gives outside of the buffer the spec leaves open: the
    component answers 0 when [pos] is negative or past the end. *)
Definition charAt (doc : Document) (pos : Z) : Z :=
  if (0 <=? pos) && (pos <? length doc)
  then match doc !! Z.to_nat pos with
       | Some b => code b
       | None => 0
       end
  else 0.

(** Modelled from the spec: [ScintillaEdit::textRange] (get-text-range) is
    missing; it gives the raw text of the half-open range [start, end). The
    spec leaves open the ranges that are not within the buffer: a start
    beyond the end is moved to the end, and the range is cut at the end of
    the document. *)
Definition textRange (doc : Document) (start end_ : Z) : list byte :=
  let start := if start >? end_ then end_ else start in
  take (Z.to_nat (end_ - start)) (drop (Z.to_nat start) doc).

(** Constants of scintilla/include/Scintilla.h, which is missing: the
    notification codes, the modifier bits and the indicator style the
    handlers name. *)
Definition SCN_INDICATORCLICK : Z := 2023.
Definition SCN_INDICATORRELEASE : Z := 2024.
Definition SCMOD_NORM : Z := 0.
Definition SCMOD_SHIFT : Z := 1.
Definition SCMOD_CTRL : Z := 2.
Definition SCMOD_ALT : Z := 4.
Definition INDIC_ROUNDBOX : Z := 7.

(** The calls the two handlers make on their collaborators, in program
    order, with the arguments the source hands over. *)
Inductive call :=
| IndicatorClearRange (start lengthClear : Z)
| CharAt (pos : Z)
| TextRange (start end_ : Z)
| RegexMatch (subject : list byte)
| IndicSetHoverStyle (indicator style : Z)
| SetIndicatorCurrent (indicator : Z)
| IndicatorFillRange (start lengthFill : Z)
| BaseMouseMoveEvent
| OpenUrlInExternalBrowser (url : list byte).

(** Modelled from the spec: the visual indicator surface is missing; it
    takes ranges of offsets to apply or clear a highlight. A surface tells
    which positions carry the indicator (indicator 0, the only one the
    widget selects). *)
Definition Surface := Z -> bool.

(** Modelled from the spec: how the missing [indicatorFillRange] and
    [indicatorClearRange] read their two arguments. The spec has ranges
    (start, stop); the handler hands [indicatorFillRange] the start and
    [m_indicatorStop - m_indicatorStart], so the second argument of the pair
    of calls is a length: the range is [start, start + len), empty when
    [len] is not positive. *)
Definition in_range (start len x : Z) : bool :=
  (start <=? x) && (x <? start + len).

Definition blank : Surface := fun _ => false.

Definition fill (start len : Z) (s : Surface) : Surface :=
  fun x => in_range start len x || s x.

Definition unfill (start len : Z) (s : Surface) : Surface :=
  fun x => negb (in_range start len x) && s x.

Definition paint (c : call) (s : Surface) : Surface :=
  match c with
  | IndicatorFillRange start len => fill start len s
  | IndicatorClearRange start len => unfill start len s
  | _ => s
  end.

Definition paint_all (cs : list call) (s : Surface) : Surface :=
  foldl (fun s c => paint c s) s cs.

End Sci.

(** ** TextFactory::isCharUrlValid *)

Module TextFactory.

Definition url_chars : list byte :=
  Sci.bytes
    "ABCDEFGHIJKLMNOPQRSTUVWXYZabcdefghijklmnopqrstuvwxyz0123456789-._~:/?#@!$&'*+,;=`".

(** Modelled from the spec: [TextFactory::isCharUrlValid] is not part of
    the sources at hand; URL-safe characters are the ASCII letters, the
    digits and the fixed set - . _ ~ : / ? # @ ! $ & ' * + , ; = ` *)
Definition isCharUrlValid (chr : Z) : bool :=
  existsb (fun b => Sci.code b =? chr) url_chars.

End TextFactory.

(** ** A backtracking matcher for the regular expression of the handler

    [QRegularExpression::match] looks for the leftmost match, tries the
    alternatives from left to right, and repeats greedily. The subject of the
    handler is a word of characters that are valid in a URL, all of them
    ASCII, so that bytes and characters of the subject are the same and the
    captured offsets are byte offsets. *)

Module Regex.

Inductive regex :=
| Chr (b : byte)
| Set_ (members : list byte)
| Seq (r1 r2 : regex)
| Alt (r1 r2 : regex)
| Opt (r : regex)
| PlusSet (members : list byte).

Definition byte_in (members : list byte) (c : byte) : bool :=
  existsb (Byte.eqb c) members.

(** Greedy repetition of a character set: take one member, prefer to take
    more, fall back to the continuation. *)
Fixpoint plus_set {A} (members : list byte) (s : list byte)
    (k : list byte -> option A) : option A :=
  match s with
  | c :: s' =>
      if byte_in members c
      then match plus_set members s' k with
           | Some x => Some x
           | None => k s'
           end
      else None
  | [] => None
  end.

(** [rmatch r s k]: match [r] at the head of [s], then hand the rest of the
    subject to [k]; alternatives are tried left to right. *)
Fixpoint rmatch {A} (r : regex) (s : list byte)
    (k : list byte -> option A) : option A :=
  match r with
  | Chr b =>
      match s with
      | c :: s' => if Byte.eqb c b then k s' else None
      | [] => None
      end
  | Set_ members =>
      match s with
      | c :: s' => if byte_in members c then k s' else None
      | [] => None
      end
  | Seq r1 r2 => rmatch r1 s (fun s' => rmatch r2 s' k)
  | Alt r1 r2 =>
      match rmatch r1 s k with
      | Some x => Some x
      | None => rmatch r2 s k
      end
  | Opt r1 =>
      match rmatch r1 s k with
      | Some x => Some x
      | None => k s
      end
  | PlusSet members => plus_set members s k
  end.

(** Length of the match of [r] anchored at the head of [s]. *)
Definition match_here (r : regex) (s : list byte) : option Z :=
  rmatch r s (fun rest => Some (Sci.length s - Sci.length rest)).

(** Leftmost match: [(capturedStart, capturedEnd)]. *)
Fixpoint search_from (r : regex) (s : list byte) (offset : Z)
    : option (Z * Z) :=
  match match_here r s with
  | Some n => Some (offset, offset + n)
  | None =>
      match s with
      | [] => None
      | _ :: s' => search_from r s' (offset + 1)
      end
  end.

Definition search (r : regex) (s : list byte) : option (Z * Z) :=
  search_from r s 0.

Fixpoint lit (bs : list byte) : regex :=
  match bs with
  | [] => Opt (Set_ [])
  | [b] => Chr b
  | b :: bs' => Seq (Chr b) (lit bs')
  end.

Definition str (s : string) : regex := lit (Sci.bytes s).

End Regex.

(** The pattern of [mouseMoveEvent]: one of the schemes http://, https://,
    ftp:// and mailto:, then one or more characters of the class, which the
    source spells out letter by letter. *)
Definition url_class : list byte :=
  Sci.bytes
    "ABCDEFGHIJKLMNOPQRSTUVWXYZabcdefghijklmnopqrstuvwxyz0123456789-._~:/?#@!$&'*+,;=`.".

Definition url_regex : Regex.regex :=
  Regex.Seq
    (Regex.Alt (Regex.Seq (Regex.str "http")
                  (Regex.Seq (Regex.Opt (Regex.Chr "s"%byte)) (Regex.str "://")))
       (Regex.Alt (Regex.str "ftp://") (Regex.str "mailto:")))
    (Regex.PlusSet url_class).


(** ** The editor widget *)

Module TextEditor.

Import Sci.

(** The two members the hover detection keeps between events. *)
Record HoverSpan := { m_indicatorStart : Z; m_indicatorStop : Z }.

Definition no_span : HoverSpan :=
  {| m_indicatorStart := -1; m_indicatorStop := -1 |}.

(** Handlers run on the members of the widget and log their calls on the
    collaborators; [None] is a loop that ran out of fuel. *)
Definition M (A : Type) : Type :=
  HoverSpan -> option (A * HoverSpan * list call).

Definition ret {A} (a : A) : M A := fun st => Some (a, st, []).

Definition bind {A B} (m : M A) (f : A -> M B) : M B :=
  fun st =>
    match m st with
    | Some (a, st1, t1) =>
        match f a st1 with
        | Some (b, st2, t2) => Some (b, st2, t1 ++ t2)
        | None => None
        end
    | None => None
    end.

Definition get : M HoverSpan := fun st => Some (st, st, []).
Definition put (st' : HoverSpan) : M unit := fun _ => Some (tt, st', []).
Definition emit (c : call) : M unit := fun st => Some (tt, st, [c]).
Definition out_of_fuel {A} : M A := fun _ => None.
Definition when (b : bool) (m : M unit) : M unit := if b then m else ret tt.

#[global] Instance M_ret : MRet M := @ret.
#[global] Instance M_bind : MBind M := fun A B f m => bind m f.

(** [charAt], logged. *)
Definition read (doc : Document) (pos : Z) : M Z :=
  emit (CharAt pos) ;; ret (charAt doc pos).

(** First loop of [mouseMoveEvent]: step left while the character is valid
    in a URL; the result is [start] at the [break]. *)
Fixpoint scan_left (fuel : nat) (doc : Document) (start : Z) : M Z :=
  match fuel with
  | O => out_of_fuel
  | S fuel' =>
      chr ← read doc start;
      if negb (TextFactory.isCharUrlValid chr)
      then ret start
      else scan_left fuel' doc (start - 1)
  end.

(** Second loop: step right while the character is valid in a URL. *)
Fixpoint scan_right (fuel : nat) (doc : Document) (end_ : Z) : M Z :=
  match fuel with
  | O => out_of_fuel
  | S fuel' =>
      chr ← read doc end_;
      if negb (TextFactory.isCharUrlValid chr)
      then ret end_
      else scan_right fuel' doc (end_ + 1)
  end.

(** The test that opens the body of the handler. *)
Definition rescans (st : HoverSpan) (text_pos : Z) : bool :=
  (text_pos >? m_indicatorStart st) || (text_pos <? m_indicatorStop st).

(** The body of [if (text_pos >= 0)]: the two loops, the text of the word,
    the regular expression and what is stored and filled after it. *)
Definition scan_word (fuel : nat) (doc : Document) (text_pos : Z) : M unit :=
  start ← scan_left fuel doc text_pos;
  let start := start + 1 in
  end_ ← scan_right fuel doc text_pos;
  emit (TextRange start end_) ;;
  let ranged_text := textRange doc start end_ in
  emit (RegexMatch ranged_text) ;;
  match Regex.search url_regex ranged_text with
  | Some (capturedStart, capturedEnd) =>
      let istart := start + capturedStart in
      let istop := end_ - length ranged_text + capturedEnd in
      put {| m_indicatorStart := istart; m_indicatorStop := istop |} ;;
      emit (IndicSetHoverStyle 0 INDIC_ROUNDBOX) ;;
      emit (SetIndicatorCurrent 0) ;;
      emit (IndicatorFillRange istart (istop - istart))
  | None =>
      put {| m_indicatorStart := start; m_indicatorStop := end_ |}
  end.

(** [TextEditor::mouseMoveEvent]; [text_pos] is what
    [positionFromPointClose] answered for the mouse position. *)
Definition mouseMoveEvent (fuel : nat) (doc : Document) (text_pos : Z)
    : M unit :=
  st ← get;
  when (rescans st text_pos)
    (emit (IndicatorClearRange (m_indicatorStart st) (m_indicatorStop st)) ;;
     put no_span ;;
     when (text_pos >=? 0) (scan_word fuel doc text_pos)) ;;
  emit BaseMouseMoveEvent.

(** Fuel that is enough for both loops on [doc]. *)
Definition enough (doc : Document) : nat := S (S (List.length doc)).

(** The notification a click on an indicator sends: [nmhdr.code] and
    [modifiers] of [SCNotification]. *)
Record SCNotification := { nmhdr_code : Z; modifiers : Z }.

(** The lambda connected to [TextEditor::notify]: the text of the stored
    range is fetched, then handed to the browser. *)
Definition notify (doc : Document) (pscn : SCNotification) : M unit :=
  st ← get;
  when ((nmhdr_code pscn =? SCN_INDICATORCLICK)
        && (modifiers pscn =? SCMOD_CTRL))
    (emit (TextRange (m_indicatorStart st) (m_indicatorStop st)) ;;
     emit (OpenUrlInExternalBrowser
             (textRange doc (m_indicatorStart st) (m_indicatorStop st)))).

(** What a handler leaves behind. *)
Definition state_after {A} (r : option (A * HoverSpan * list call))
    : option HoverSpan :=
  match r with Some (_, st, _) => Some st | None => None end.

Definition calls_of {A} (r : option (A * HoverSpan * list call))
    : list call :=
  match r with Some (_, _, t) => t | None => [] end.

End TextEditor.


(** ** The find-results model

    findresultsmodel.h declares [FindResultsModel] with its root item,
    [clear], [addResults] and [itemForIndex]; the bodies and the item classes
    are in files that are not at hand. *)

Module FindResults.

Section Model.

(** Editors are compared by identity ([TextEditor*]). *)
Context {Editor : Type} `{EqDecision Editor}.

(** Modelled from the spec: the item classes are missing; a MatchLeaf
    stores (documentHandle, startOffset, endOffset) and has no
    children. *)
Record MatchLeaf := {
  leaf_editor : Editor;
  leaf_start : Z;
  leaf_end : Z
}.

(** Modelled from the spec: the item classes are missing; a
    DocumentGroup refers to a document handle and has an ordered
    sequence of MatchLeaf children. *)
Record DocumentGroup := {
  group_editor : Editor;
  group_results : list MatchLeaf
}.

(** Modelled from the spec: the Root ([m_rootItem]) has an ordered
    sequence of DocumentGroup children and no payload. *)
Definition Root := list DocumentGroup.

Definition editors (root : Root) : list Editor := group_editor <$> root.

(** Modelled from the spec: the body of [FindResultsModel::clear] is
    missing; it removes all groups and leaves, Root remains. *)
Definition clear : Root := [].

Definition result_item (editor : Editor) (r : Z * Z) : MatchLeaf :=
  {| leaf_editor := editor; leaf_start := r.1; leaf_end := r.2 |}.

Definition new_group (editor : Editor) : DocumentGroup :=
  {| group_editor := editor; group_results := [] |}.

(** Modelled from the spec: first half of the missing [addResults]; if no
    group exists for the editor, one is appended to the children of Root. *)
Definition ensure_group (editor : Editor) (root : Root) : Root :=
  if bool_decide (editor ∈ editors root) then root
  else root ++ [new_group editor].

(** Modelled from the spec: second half of the missing [addResults]; the
    leaves go under the group of the editor, after the leaves it has. *)
Fixpoint append_leaves (editor : Editor) (leaves : list MatchLeaf)
    (root : Root) : Root :=
  match root with
  | [] => []
  | g :: rest =>
      if decide (group_editor g = editor)
      then {| group_editor := group_editor g;
              group_results := group_results g ++ leaves |} :: rest
      else g :: append_leaves editor leaves rest
  end.

(** Modelled from the spec: the body of [FindResultsModel::addResults] is
    missing; if no DocumentGroup exists for the document, one is created
    and appended to the children of Root; then one MatchLeaf per entry
    of the matches is appended, in the given order, under that group. *)
Definition addResults (editor : Editor) (results : list (Z * Z))
    (root : Root) : Root :=
  append_leaves editor (result_item editor <$> results)
    (ensure_group editor root).

(** A sequence of [addResults] calls on a cleared model. *)
Definition add_all (calls : list (Editor * list (Z * Z))) : Root :=
  foldl (fun root c => addResults c.1 c.2 root) clear calls.

(** Modelled from the spec: [FindResultsModelItem] and its two subclasses
    are missing; a node is Root, a DocumentGroup or a MatchLeaf. *)
Inductive Item :=
| RootItem (children : Root)
| EditorItem (g : DocumentGroup)
| ResultItem (l : MatchLeaf).

(** Modelled from the spec: [QModelIndex] as the model hands it out is
    missing; a token is null, or holds the row of a group under Root and,
    for a leaf, the row of the leaf under that group. *)
Inductive ModelIndex :=
| NullIndex
| GroupIndex (row : nat)
| ResultIndex (group_row row : nat).

(** Modelled from the spec: the node a token denotes, if any; the missing
    [index] hands out tokens for groups and leaves only. *)
Definition item_at (root : Root) (idx : ModelIndex) : option Item :=
  match idx with
  | NullIndex => None
  | GroupIndex row => EditorItem <$> root !! row
  | ResultIndex group_row row =>
      g ← root !! group_row;
      ResultItem <$> group_results g !! row
  end.

(** Modelled from the spec: an invalid token is a null one, or one whose
    rows the tree does not have: a group row that is not below the number
    of groups of Root, or a leaf row that is not below the number of leaves
    of its group (any leaf row, when there is no such group). *)
Definition token_invalid (root : Root) (idx : ModelIndex) : Prop :=
  match idx with
  | NullIndex => True
  | GroupIndex row => (List.length root <= row)%nat
  | ResultIndex group_row row =>
      forall g, root !! group_row = Some g ->
                (List.length (group_results g) <= row)%nat
  end.

(** Modelled from the spec: the body of
    [FindResultsModel::itemForIndex] is missing; it resolves a token to
    the node it denotes, or to the Root if the token is invalid or
    null. *)
Definition itemForIndex (root : Root) (idx : ModelIndex) : Item :=
  match item_at root idx with
  | Some item => item
  | None => RootItem root
  end.

(** The nodes of a tree: Root, its groups, their leaves. *)
Definition is_node (root : Root) (item : Item) : Prop :=
  match item with
  | RootItem children => children = root
  | EditorItem g => g ∈ root
  | ResultItem l => exists g, g ∈ root /\ l ∈ group_results g
  end.

(** The leaves the calls hand in for an editor, in call order. *)
Definition results_for (editor : Editor)
    (calls : list (Editor * list (Z * Z))) : list MatchLeaf :=
  c ← calls;
  if decide (c.1 = editor) then result_item editor <$> c.2 else [].

(** The offset pairs the calls hand in for an editor, in call order. *)
Definition matches_for (editor : Editor)
    (calls : list (Editor * list (Z * Z))) : list (Z * Z) :=
  c ← calls;
  if decide (c.1 = editor) then c.2 else [].

(** The offsets a leaf stores. *)
Definition leaf_offsets (l : MatchLeaf) : Z * Z := (leaf_start l, leaf_end l).

(** What holds of the tree after any sequence of calls. *)
Record tree_inv (calls : list (Editor * list (Z * Z))) (root : Root)
    : Prop := {
  ti_nodup : NoDup (editors root);
  ti_editors : forall e, e ∈ editors root <-> e ∈ calls.*1;
  ti_results : forall g, g ∈ root ->
               group_results g = results_for (group_editor g) calls
}.

End Model.

Arguments MatchLeaf : clear implicits.
Arguments DocumentGroup : clear implicits.
Arguments Root : clear implicits.
Arguments Item : clear implicits.

End FindResults.

(** ** Vocabulary of the statements *)

Module Spec.

Import Sci TextEditor.

(** The loops only call [charAt]. *)
Definition reads_within (lo hi : Z) (t : list call) : Prop :=
  Forall (fun c => exists pos, c = CharAt pos /\ lo <= pos <= hi) t.

(** How many steps the left loop can still take from [pos]. *)
Definition left_room (doc : Document) (pos : Z) : nat :=
  if pos <? length doc then Z.to_nat (pos + 1) else 0%nat.

Definition right_room (doc : Document) (pos : Z) : nat :=
  if 0 <=? pos then Z.to_nat (length doc - pos) else 0%nat.

(** What the left loop computes. *)
Record left_stop (doc : Document) (p s : Z) (t : list call) : Prop := {
  ls_range : Z.min p (-1) <= s <= p;
  ls_stop : TextFactory.isCharUrlValid (charAt doc s) = false;
  ls_run : forall q, s < q <= p ->
           TextFactory.isCharUrlValid (charAt doc q) = true;
  ls_reads : reads_within s p t;
  ls_last : In (CharAt s) t
}.

(** What the right loop computes. *)
Record right_stop (doc : Document) (p e : Z) (t : list call) : Prop := {
  rs_range : p <= e <= Z.max p (length doc);
  rs_stop : TextFactory.isCharUrlValid (charAt doc e) = false;
  rs_run : forall q, p <= q < e ->
           TextFactory.isCharUrlValid (charAt doc q) = true;
  rs_reads : reads_within p e t;
  rs_last : In (CharAt e) t
}.

(** [ws] and [we] are the ends of the word around [p]: the left loop
    stopped one position before [ws], the right loop at [we], and [reads]
    are the [charAt] calls of the two loops. *)
Definition word_bounds (doc : Document) (p ws we : Z) (reads : list call)
    : Prop :=
  exists tl tr,
    reads = tl ++ tr /\
    left_stop doc p (ws - 1) tl /\ right_stop doc p we tr.

(** The character offset lies within the stored span. *)
Definition within (st : HoverSpan) (p : Z) : Prop :=
  m_indicatorStart st <= p < m_indicatorStop st.

(** The calls of the handler after the clearing of the old span, for a
    word [ws, we) and the answer [m] of the regular expression. *)
Definition rescan_calls (doc : Document) (ws we : Z) (reads : list call)
    (m : option (Z * Z)) : list call :=
  reads ++
  [TextRange ws we; RegexMatch (textRange doc ws we)] ++
  match m with
  | Some (cs, ce) =>
      [IndicSetHoverStyle 0 INDIC_ROUNDBOX; SetIndicatorCurrent 0;
       IndicatorFillRange (ws + cs) (ce - cs)]
  | None => []
  end.

(** The span stored after a scan. *)
Definition rescan_span (ws we : Z) (m : option (Z * Z)) : HoverSpan :=
  match m with
  | Some (cs, ce) =>
      {| m_indicatorStart := ws + cs; m_indicatorStop := ws + ce |}
  | None => {| m_indicatorStart := ws; m_indicatorStop := we |}
  end.

(** The stored members are the sentinel of the handler or two offsets:
    what the first event that passes the test establishes and every later
    event keeps. *)
Definition span_ok (st : HoverSpan) : Prop :=
  st = no_span \/ (0 <= m_indicatorStart st /\ 0 <= m_indicatorStop st).

(** The calls that belong to the word expansion and the regular
    expression. *)
Definition is_scan (c : call) : bool :=
  match c with
  | CharAt _ | TextRange _ _ | RegexMatch _ => true
  | _ => false
  end.

(** The calls that change the indicator. *)
Definition is_paint (c : call) : bool :=
  match c with
  | IndicatorClearRange _ _ | IndicatorFillRange _ _ => true
  | _ => false
  end.

Definition is_open_url (c : call) : bool :=
  match c with
  | OpenUrlInExternalBrowser _ => true
  | _ => false
  end.

(** The Ctrl key is among the modifiers of a notification. *)
Definition ctrl_held (mods : Z) : bool :=
  negb (Z.land mods SCMOD_CTRL =? 0).

End Spec.

(** ** Vocabulary of the further statements on the hover detector *)

Module Urls.

Import Sci TextEditor.

(** The four ways the pattern of the handler can begin. *)
Definition schemes : list (list byte) :=
  [bytes "http://"; bytes "https://"; bytes "ftp://"; bytes "mailto:"].

(** A byte of the character class of the pattern. *)
Definition in_class (b : byte) : bool := Regex.byte_in url_class b.

(** The notification of a click on the indicator with Ctrl alone. *)
Definition ctrl_click : SCNotification :=
  {| nmhdr_code := SCN_INDICATORCLICK; modifiers := SCMOD_CTRL |}.

End Urls.

(** ** Saving and closing

    [saveToFile], [saveAs], [save], [closeEditor] and [closeEvent] of
    texteditor.cpp. What the user and the file system answer is given by a
    [World]; the handlers return what they leave in [*ok], the widget after
    the call and the effects they had, in program order. *)

Module Saving.

(** The answers [QMessageBox::question] can give to [closeEditor]. *)
Inductive StandardButton := Save | Discard | Cancel | OtherButton.

(** The members and the state of the component the five functions use:
    [modify] is what [ScintillaEdit::modify()] answers (the text differs from
    the save point), [text] is what [getText(length() + 1)] answers. *)
Record Widget := {
  m_filePath : string;
  m_encoding : string;
  text : string;
  modify : bool
}.

(** What lies outside of the widget: the button the user presses in the
    question box, the file name the user picks in the save dialog (empty
    when the dialog is dismissed), whether [QFile::open] for writing
    succeeds on a path, and [QDir::toNativeSeparators]. *)
Record World := {
  question : StandardButton;
  getSaveFileName : string;
  open_for_writing : string -> bool;
  toNativeSeparators : string -> string
}.

Inductive effect :=
| RequestedVisibility
| AskUnsavedChanges
| AskSaveFileName (current_path : string)
| SetLoadSaveDefaultDirectory (path : string)
| WriteFile (path codec contents : string)
| SetSavePoint
| SavedToFile (path : string)
| EventIgnore
| BaseCloseEvent.

Definition isEmpty (s : string) : bool :=
  match s with
  | EmptyString => true
  | String _ _ => false
  end.

Definition Result : Type := bool * Widget * list effect.

Definition ok_of (r : Result) : bool := r.1.1.
Definition widget_of (r : Result) : Widget := r.1.2.
Definition effects_of (r : Result) : list effect := r.2.

(** [TextEditor::saveToFile]. The declaration with the default argument
    is in texteditor.h, which is missing: the calls without an encoding, in
    [save] and [saveAs], are taken to pass an empty one, as the test in
    [saveAs] suggests. The encoding is stored before the file is opened; the
    file path, the save point and the signal come after the text is
    written. *)
Definition saveToFile (w : World) (file_path encoding : string)
    (ed : Widget) : Result :=
  let ed1 :=
    if negb (isEmpty encoding)
    then {| m_filePath := m_filePath ed; m_encoding := encoding;
            text := text ed; modify := modify ed |}
    else ed in
  if negb (open_for_writing w file_path)
  then (false, ed1, [])
  else
    let path := toNativeSeparators w file_path in
    (true,
     {| m_filePath := path; m_encoding := m_encoding ed1;
        text := text ed1; modify := false |},
     [WriteFile file_path (m_encoding ed1) (text ed1);
      SetSavePoint; SavedToFile path]).

(** [TextEditor::saveAs]; the dialog is opened on the directory and the name
    of the current file path. *)
Definition saveAs (w : World) (encoding : string) (ed : Widget) : Result :=
  let file_path := getSaveFileName w in
  if negb (isEmpty file_path)
  then
    let r :=
      if isEmpty encoding
      then saveToFile w file_path EmptyString ed
      else saveToFile w file_path encoding ed in
    (ok_of r, widget_of r,
     [AskSaveFileName (m_filePath ed); SetLoadSaveDefaultDirectory file_path]
       ++ effects_of r)
  else (false, ed, [AskSaveFileName (m_filePath ed)]).

(** [TextEditor::save]. *)
Definition save (w : World) (ed : Widget) : Result :=
  if isEmpty (m_filePath ed)
  then saveAs w EmptyString ed
  else saveToFile w (m_filePath ed) EmptyString ed.

(** [TextEditor::closeEditor]. *)
Definition closeEditor (w : World) (ed : Widget) : Result :=
  if modify ed
  then
    match question w with
    | Save =>
        let r := save w ed in
        (ok_of r, widget_of r,
         [RequestedVisibility; AskUnsavedChanges] ++ effects_of r)
    | Discard => (true, ed, [RequestedVisibility; AskUnsavedChanges])
    | Cancel => (false, ed, [RequestedVisibility; AskUnsavedChanges])
    | OtherButton => (false, ed, [RequestedVisibility; AskUnsavedChanges])
    end
  else (true, ed, []).

(** [TextEditor::closeEvent]: the event is ignored, or goes on to the base
    class. *)
Definition closeEvent (w : World) (ed : Widget) : Widget * list effect :=
  let r := closeEditor w ed in
  (widget_of r,
   effects_of r ++ [if negb (ok_of r) then EventIgnore else BaseCloseEvent]).

Definition is_write (e : effect) : bool :=
  match e with
  | WriteFile _ _ _ => true
  | _ => false
  end.

(** The save point and the signal that follow a written file. *)
Definition is_saved (e : effect) : bool :=
  match e with
  | SetSavePoint | SavedToFile _ => true
  | _ => false
  end.

Definition is_dialog (e : effect) : bool :=
  match e with
  | AskUnsavedChanges | AskSaveFileName _ => true
  | _ => false
  end.

(** What the three saving functions have in common: the text is kept, a
    file is written and the signal is sent exactly on success, success
    clears the unsaved changes, and failure keeps them and the file path. *)
Definition save_outcome (ed : Widget) (r : Result) : Prop :=
  text (widget_of r) = text ed /\
  existsb is_write (effects_of r) = ok_of r /\
  ((exists path, In (SavedToFile path) (effects_of r)) <-> ok_of r = true) /\
  (ok_of r = true -> modify (widget_of r) = false) /\
  (ok_of r = false ->
     modify (widget_of r) = modify ed /\
     m_filePath (widget_of r) = m_filePath ed).

End Saving.

(** ** The wheel, the line number margin and the colours of the styles *)

Module Widgets.

(** Values of the Qt enumerations [wheelEvent] names. *)
Definition Qt_Horizontal : Z := 1.
Definition Qt_Vertical : Z := 2.
Definition Qt_ScrollBarAlwaysOff : Z := 1.
Definition Qt_ShiftModifier : Z := 33554432.
Definition Qt_ControlModifier : Z := 67108864.

Record QWheelEvent := { orientation : Z; delta : Z }.

(** What [wheelEvent] does with an event. *)
Inductive wheel_action :=
| WheelIgnore
| WheelScrollArea
| IncreaseFontSize
| DecreaseFontSize
| IncreaseLineSpacing
| DecreaseLineSpacing.

(** [TextEditor::wheelEvent]; the two policies are what
    [horizontalScrollBarPolicy()] and [verticalScrollBarPolicy()] answer,
    [keyboardModifiers] what [QGuiApplication::keyboardModifiers()]
    answers. *)
Definition wheelEvent (horizontalScrollBarPolicy verticalScrollBarPolicy
    keyboardModifiers : Z) (event : QWheelEvent) : wheel_action :=
  if orientation event =? Qt_Horizontal then
    if horizontalScrollBarPolicy =? Qt_ScrollBarAlwaysOff
    then WheelIgnore
    else WheelScrollArea
  else
    if negb (Z.land keyboardModifiers Qt_ControlModifier =? 0) then
      if delta event >? 0 then IncreaseFontSize else DecreaseFontSize
    else if negb (Z.land keyboardModifiers Qt_ShiftModifier =? 0) then
      if delta event >? 0 then IncreaseLineSpacing else DecreaseLineSpacing
    else
      if verticalScrollBarPolicy =? Qt_ScrollBarAlwaysOff
      then WheelIgnore
      else WheelScrollArea.

(** The widths of the margins of the component, by margin number:
    [marginWidthN] reads one, [setMarginWidthN] sets one. *)
Definition Margins := Z -> Z.

Definition setMarginWidthN (margin width : Z) (m : Margins) : Margins :=
  fun k => if k =? margin then width else m k.

(** [TextEditor::isMarginVisible]. *)
Definition isMarginVisible (m : Margins) (margin_number : Z) : bool :=
  m margin_number >? 0.

(** What the margin functions read from outside: the two macros of
    definitions.h, the setting, the zoom and the line count of the
    component, and the width [TextFactory::stringWidth] finds for the
    number of lines in a font at a zoom. *)
Record MarginEnv := {
  QFont : Type;
  MARGIN_LINE_NUMBERS : Z;
  MARGIN_PADDING_LINE_NUMBERS : Z;
  lineNumbersEnabled : bool;
  mainFont : QFont;
  zoom : Z;
  lineCount : Z;
  stringWidth : QFont -> Z -> Z -> Z
}.

(** [TextEditor::updateLineNumberMarginWidth]: the width of the number
    [line_count] in [font], its point size raised by [zoom], and the
    padding. *)
Definition updateLineNumberMarginWidth (env : MarginEnv)
    (zoom_ : Z) (font : QFont env) (line_count : Z) (m : Margins) : Margins :=
  let width := stringWidth env font zoom_ line_count
               + MARGIN_PADDING_LINE_NUMBERS env in
  setMarginWidthN (MARGIN_LINE_NUMBERS env) width m.

(** [TextEditor::updateLineNumberMarginVisibility]. *)
Definition updateLineNumberMarginVisibility (env : MarginEnv) (m : Margins)
    : Margins :=
  let current_width := m (MARGIN_LINE_NUMBERS env) in
  let should_be_visible := lineNumbersEnabled env in
  if (current_width <=? 0) && negb should_be_visible then m
  else if should_be_visible
  then updateLineNumberMarginWidth env (zoom env) (mainFont env)
         (lineCount env) m
  else setMarginWidthN (MARGIN_LINE_NUMBERS env) 0 m.

(** [TextEditor::onModified]: only [lines_added] is used. *)
Definition onModified (env : MarginEnv) (lines_added : Z) (m : Margins)
    : Margins :=
  if negb (lines_added =? 0) then updateLineNumberMarginVisibility env m
  else m.

(** Constants of Scintilla.h and SciLexer.h that [reloadLexer] names. *)
Definition STYLE_DEFAULT : Z := 32.
Definition STYLE_LASTPREDEFINED : Z := 39.
Definition STYLE_MAX : Z := 255.
Definition SCLEX_NULL : Z := 1.

(** The calls of [reloadLexer] on the component. *)
Inductive style_call :=
| SetLexer (code : Z)
| StyleSetFore (style colour : Z)
| SetWhitespaceFore (use : bool) (colour : Z)
| SetWhitespaceSize (size : Z)
| Colourise (start end_ : Z).

(** The colour of style [i] in the loop of [reloadLexer]; [random i] is what
    [RGB_TO_SPRT(rand() % 160, rand() % 160, rand() % 160)] gives in the
    round of [i]. *)
Definition loop_colour (code : Z) (random : Z -> Z) (i : Z) : Z :=
  if negb (code =? SCLEX_NULL)
     && ((i <? STYLE_DEFAULT) || (i >? STYLE_LASTPREDEFINED))
  then random i
  else 0.

(** The member [m_code] of a [Lexer]. *)
Record Lexer := { m_code : Z }.

(** [TextEditor::reloadLexer]: the lexer it stores in [m_lexer] and the
    calls it makes; [grey] is [RGB_TO_SPRT(200, 200, 200)]. The loop runs
    from 1 to [STYLE_MAX]. *)
Definition reloadLexer (default_lexer : Lexer) (grey : Z) (random : Z -> Z)
    : Lexer * list style_call :=
  let m_lexer := default_lexer in
  (m_lexer,
   [SetLexer (m_code m_lexer); StyleSetFore 0 0; SetWhitespaceFore true grey;
    SetWhitespaceSize 3]
   ++ ((fun i => StyleSetFore i (loop_colour (m_code m_lexer) random i))
         <$> seqZ 1 STYLE_MAX)
   ++ [Colourise 0 (-1)]).

(** The foreground colours of the styles, by style number, and what a call
    does to them. *)
Definition Fores := Z -> Z.

Definition apply_style_call (f : Fores) (c : style_call) : Fores :=
  match c with
  | StyleSetFore style colour => fun k => if k =? style then colour else f k
  | _ => f
  end.

Definition apply_style_calls (cs : list style_call) (f : Fores) : Fores :=
  foldl apply_style_call f cs.

End Widgets.

(** * Properties *)

(** ** Characters and the document *)

Section Characters.

Import Sci.

Lemma url_chars_printable :
  forallb (fun b => (33 <=? code b) && (code b <=? 126))
    TextFactory.url_chars = true.
Proof. vm_compute. reflexivity. Qed.

Lemma isCharUrlValid_printable (chr : Z) :
  TextFactory.isCharUrlValid chr = true -> 33 <= chr <= 126.
Proof.
  unfold TextFactory.isCharUrlValid. rewrite existsb_exists.
  intros (b & Hin & Heq).
  pose proof url_chars_printable as Hall.
  rewrite forallb_forall in Hall. specialize (Hall b Hin). lia.
Qed.

Lemma charAt_outside (doc : Document) (pos : Z) :
  pos < 0 \/ length doc <= pos -> charAt doc pos = 0.
Proof.
  intros H. unfold charAt.
  destruct (0 <=? pos) eqn:E1; destruct (pos <? length doc) eqn:E2;
    simpl; try reflexivity; lia.
Qed.

(** Only positions of the document hold a character that is valid in a
    URL: outside of it [charAt] answers 0. *)
Lemma valid_char_inside (doc : Document) (pos : Z) :
  TextFactory.isCharUrlValid (charAt doc pos) = true ->
  0 <= pos < length doc.
Proof.
  intros H. apply isCharUrlValid_printable in H.
  destruct (Z_lt_dec pos 0) as [Hneg|Hnn].
  - rewrite charAt_outside in H by lia. lia.
  - destruct (Z_le_dec (length doc) pos) as [Hge|Hlt].
    + rewrite charAt_outside in H by lia. lia.
    + lia.
Qed.

Lemma textRange_backwards (doc : Document) (start end_ : Z) :
  end_ <= start -> textRange doc start end_ = [].
Proof.
  intros H. unfold textRange.
  destruct (start >? end_) eqn:E.
  - replace (Z.to_nat (end_ - end_)) with 0%nat by lia. reflexivity.
  - replace (Z.to_nat (end_ - start)) with 0%nat by lia. reflexivity.
Qed.

Lemma textRange_length (doc : Document) (start end_ : Z) :
  0 <= start <= end_ -> end_ <= length doc ->
  length (textRange doc start end_) = end_ - start.
Proof.
  intros H1 H2. unfold textRange, length in *.
  destruct (start >? end_) eqn:E; [lia|].
  rewrite length_take, length_drop. lia.
Qed.

(** The text of a range is the document between its two ends. *)
Lemma textRange_lookup (doc : Document) (start end_ : Z) (i : nat) :
  0 <= start <= end_ -> Z.of_nat i < end_ - start ->
  textRange doc start end_ !! i = doc !! (Z.to_nat start + i)%nat.
Proof.
  intros H1 H2. unfold textRange.
  destruct (start >? end_) eqn:E; [lia|].
  rewrite lookup_take_lt by lia. apply lookup_drop.
Qed.

Lemma search_empty : Regex.search url_regex [] = None.
Proof. reflexivity. Qed.

End Characters.

(** ** The two loops *)

Section Loops.

Import Sci TextEditor Spec.

Lemma scan_left_step fuel doc start st :
  scan_left (S fuel) doc start st =
    if TextFactory.isCharUrlValid (charAt doc start)
    then match scan_left fuel doc (start - 1) st with
         | Some (r, st', t) => Some (r, st', CharAt start :: t)
         | None => None
         end
    else Some (start, st, [CharAt start]).
Proof.
  cbn [scan_left]. unfold mbind, M_bind, bind, read, emit, mbind, M_bind, bind, ret.
  destruct (TextFactory.isCharUrlValid (charAt doc start)); cbn; [|reflexivity].
  destruct (scan_left fuel doc (start - 1) st) as [[[r st'] t]|]; reflexivity.
Qed.

Lemma scan_right_step fuel doc end_ st :
  scan_right (S fuel) doc end_ st =
    if TextFactory.isCharUrlValid (charAt doc end_)
    then match scan_right fuel doc (end_ + 1) st with
         | Some (r, st', t) => Some (r, st', CharAt end_ :: t)
         | None => None
         end
    else Some (end_, st, [CharAt end_]).
Proof.
  cbn [scan_right]. unfold mbind, M_bind, bind, read, emit, mbind, M_bind, bind, ret.
  destruct (TextFactory.isCharUrlValid (charAt doc end_)); cbn; [|reflexivity].
  destruct (scan_right fuel doc (end_ + 1) st) as [[[r st'] t]|]; reflexivity.
Qed.

Lemma reads_within_cons lo hi pos t :
  lo <= pos <= hi -> reads_within lo hi t ->
  reads_within lo hi (CharAt pos :: t).
Proof. intros H Ht. constructor; [exists pos; auto | exact Ht]. Qed.

Lemma reads_within_weaken lo hi lo' hi' t :
  lo' <= lo -> hi <= hi' -> reads_within lo hi t -> reads_within lo' hi' t.
Proof.
  intros Hlo Hhi Ht. unfold reads_within in *.
  eapply Forall_impl; [exact Ht|].
  intros c (pos & -> & Hb). exists pos. split; [reflexivity | lia].
Qed.

Lemma reads_within_app lo hi t1 t2 :
  reads_within lo hi t1 -> reads_within lo hi t2 ->
  reads_within lo hi (t1 ++ t2).
Proof. unfold reads_within. intros. apply Forall_app; auto. Qed.

Lemma scan_left_spec fuel : forall doc p st,
  (left_room doc p < fuel)%nat ->
  exists s t, scan_left fuel doc p st = Some (s, st, t) /\ left_stop doc p s t.
Proof.
  induction fuel as [|fuel IH]; intros doc p st Hfuel; [lia|].
  rewrite scan_left_step.
  destruct (TextFactory.isCharUrlValid (charAt doc p)) eqn:Hv.
  - pose proof (valid_char_inside _ _ Hv) as Hin.
    destruct (IH doc (p - 1) st) as (s & t & Hs & Hl).
    { unfold left_room in *.
      destruct (p <? length doc) eqn:E1; [|lia].
      destruct (p - 1 <? length doc) eqn:E2; lia. }
    rewrite Hs. exists s, (CharAt p :: t). split; [reflexivity|].
    destruct Hl as [Hr Hst Hrun Hrd Hlast]. split.
    + lia.
    + exact Hst.
    + intros q Hq. destruct (Z.eq_dec q p) as [->|Hne]; [exact Hv|].
      apply Hrun. lia.
    + apply reads_within_cons; [lia|].
      eapply reads_within_weaken; [| |exact Hrd]; lia.
    + right. exact Hlast.
  - exists p, [CharAt p]. split; [reflexivity|]. split.
    + lia.
    + exact Hv.
    + intros q Hq. lia.
    + apply reads_within_cons; [lia | constructor].
    + left. reflexivity.
Qed.

Lemma scan_right_spec fuel : forall doc p st,
  (right_room doc p < fuel)%nat ->
  exists e t, scan_right fuel doc p st = Some (e, st, t) /\ right_stop doc p e t.
Proof.
  induction fuel as [|fuel IH]; intros doc p st Hfuel; [lia|].
  rewrite scan_right_step.
  destruct (TextFactory.isCharUrlValid (charAt doc p)) eqn:Hv.
  - pose proof (valid_char_inside _ _ Hv) as Hin.
    destruct (IH doc (p + 1) st) as (e & t & He & Hr).
    { unfold right_room in *.
      destruct (0 <=? p) eqn:E1; [|lia].
      destruct (0 <=? p + 1) eqn:E2; lia. }
    rewrite He. exists e, (CharAt p :: t). split; [reflexivity|].
    destruct Hr as [Hrg Hst Hrun Hrd Hlast]. split.
    + lia.
    + exact Hst.
    + intros q Hq. destruct (Z.eq_dec q p) as [->|Hne]; [exact Hv|].
      apply Hrun. lia.
    + apply reads_within_cons; [lia|].
      eapply reads_within_weaken; [| |exact Hrd]; lia.
    + right. exact Hlast.
  - exists p, [CharAt p]. split; [reflexivity|]. split.
    + lia.
    + exact Hv.
    + intros q Hq. lia.
    + apply reads_within_cons; [lia | constructor].
    + left. reflexivity.
Qed.

Lemma enough_left doc p fuel :
  (enough doc <= fuel)%nat -> (left_room doc p < fuel)%nat.
Proof.
  unfold enough, left_room, length. intros H.
  destruct (p <? Z.of_nat (List.length doc)) eqn:E; lia.
Qed.

Lemma enough_right doc p fuel :
  (enough doc <= fuel)%nat -> (right_room doc p < fuel)%nat.
Proof.
  unfold enough, right_room, length. intros H.
  destruct (0 <=? p) eqn:E; lia.
Qed.

(** The result of a loop does not depend on the fuel, once there is
    enough of it. *)
Lemma left_stop_unique doc p s1 t1 s2 t2 :
  left_stop doc p s1 t1 -> left_stop doc p s2 t2 -> s1 = s2.
Proof.
  intros [H1 H2 H3 _ _] [G1 G2 G3 _ _].
  destruct (Z.lt_trichotomy s1 s2) as [Hlt|[Heq|Hgt]]; [|exact Heq|].
  - rewrite (H3 s2) in G2 by lia. discriminate.
  - rewrite (G3 s1) in H2 by lia. discriminate.
Qed.

Lemma right_stop_unique doc p e1 t1 e2 t2 :
  right_stop doc p e1 t1 -> right_stop doc p e2 t2 -> e1 = e2.
Proof.
  intros [H1 H2 H3 _ _] [G1 G2 G3 _ _].
  destruct (Z.lt_trichotomy e1 e2) as [Hlt|[Heq|Hgt]]; [|exact Heq|].
  - rewrite (G3 e1) in H2 by lia. discriminate.
  - rewrite (H3 e2) in G2 by lia. discriminate.
Qed.

End Loops.

(** ** The scan around a valid position *)

Section Rescan.

Import Sci TextEditor Spec.

(** Either the character under the mouse is not valid in a URL and the
    word is empty and inverted, or the word is a range of the document
    that holds the position. *)
Lemma word_shape doc p s e tl tr :
  0 <= p -> left_stop doc p s tl -> right_stop doc p e tr ->
  (TextFactory.isCharUrlValid (charAt doc p) = false /\ s = p /\ e = p) \/
  (TextFactory.isCharUrlValid (charAt doc p) = true /\
   0 <= s + 1 <= p /\ p < e <= length doc).
Proof.
  intros Hp [L1 L2 L3 _ _] [R1 R2 R3 _ _].
  destruct (TextFactory.isCharUrlValid (charAt doc p)) eqn:Hv.
  - right. pose proof (valid_char_inside _ _ Hv) as Hin.
    assert (s <> p) by (intros ->; congruence).
    assert (e <> p) by (intros ->; congruence).
    split; [reflexivity|]. lia.
  - left. split; [reflexivity|]. split.
    + destruct (Z.eq_dec s p) as [|Hne]; [assumption|].
      rewrite (L3 p) in Hv by lia. discriminate.
    + destruct (Z.eq_dec e p) as [|Hne]; [assumption|].
      rewrite (R3 p) in Hv by lia. discriminate.
Qed.

Lemma scan_word_run fuel doc p st :
  (enough doc <= fuel)%nat -> 0 <= p ->
  exists ws we reads,
    word_bounds doc p ws we reads /\
    let m := Regex.search url_regex (textRange doc ws we) in
    scan_word fuel doc p st =
      Some (tt, rescan_span ws we m, rescan_calls doc ws we reads m).
Proof.
  intros Hfuel Hp.
  destruct (scan_left_spec fuel doc p st (enough_left _ _ _ Hfuel))
    as (s & tl & Hs & Hl).
  destruct (scan_right_spec fuel doc p st (enough_right _ _ _ Hfuel))
    as (e & tr & He & Hr).
  exists (s + 1), e, (tl ++ tr). split.
  { exists tl, tr. replace (s + 1 - 1) with s by lia. auto. }
  unfold scan_word, mbind, M_bind, bind. rewrite Hs, He.
  unfold rescan_calls, rescan_span, emit, put. cbn zeta.
  destruct (Regex.search url_regex (textRange doc (s + 1) e))
    as [[cs ce]|] eqn:Hm; cbn.
  - destruct (word_shape _ _ _ _ _ _ Hp Hl Hr)
      as [(_ & -> & ->)|(_ & Hs1 & He1)].
    + rewrite textRange_backwards in Hm by lia. discriminate.
    + rewrite textRange_length by lia.
      replace (e - (e - (s + 1)) + ce) with (s + 1 + ce) by lia.
      replace (s + 1 + ce - (s + 1 + cs)) with (ce - cs) by lia.
      rewrite <- !app_assoc. reflexivity.
  - rewrite <- !app_assoc. reflexivity.
Qed.

End Rescan.

(** ** The mouse handler, case by case *)

Section Handler.

Import Sci TextEditor Spec.

Lemma rescans_false_iff st p :
  rescans st p = false <-> m_indicatorStop st <= p <= m_indicatorStart st.
Proof.
  unfold rescans. rewrite orb_false_iff.
  destruct (p >? m_indicatorStart st) eqn:E1;
    destruct (p <? m_indicatorStop st) eqn:E2; split; intros H;
    try (destruct H; discriminate); try lia; auto.
Qed.

(** The test of the handler holds at every position of a span that is not
    empty, inside of it as well as outside. *)
Lemma rescans_proper_span st p :
  m_indicatorStart st < m_indicatorStop st -> rescans st p = true.
Proof.
  intros H. destruct (rescans st p) eqn:E; [reflexivity|].
  apply rescans_false_iff in E. lia.
Qed.

Lemma mouseMoveEvent_skip fuel doc p st :
  rescans st p = false ->
  mouseMoveEvent fuel doc p st = Some (tt, st, [BaseMouseMoveEvent]).
Proof.
  intros H. unfold mouseMoveEvent, mbind, M_bind, bind, get.
  rewrite H. reflexivity.
Qed.

Lemma mouseMoveEvent_off_text fuel doc p st :
  rescans st p = true -> p < 0 ->
  mouseMoveEvent fuel doc p st =
    Some (tt, no_span,
          [IndicatorClearRange (m_indicatorStart st) (m_indicatorStop st);
           BaseMouseMoveEvent]).
Proof.
  intros H Hp. unfold mouseMoveEvent, mbind, M_bind, bind, get.
  rewrite H. replace (p >=? 0) with false by lia. reflexivity.
Qed.

Lemma mouseMoveEvent_rescan fuel doc p st :
  rescans st p = true -> 0 <= p -> (enough doc <= fuel)%nat ->
  exists ws we reads,
    word_bounds doc p ws we reads /\
    let m := Regex.search url_regex (textRange doc ws we) in
    mouseMoveEvent fuel doc p st =
      Some (tt, rescan_span ws we m,
            IndicatorClearRange (m_indicatorStart st) (m_indicatorStop st)
              :: rescan_calls doc ws we reads m ++ [BaseMouseMoveEvent]).
Proof.
  intros H Hp Hfuel.
  destruct (scan_word_run fuel doc p no_span Hfuel Hp)
    as (ws & we & reads & Hw & Hrun).
  exists ws, we, reads. split; [exact Hw|]. cbn zeta in *.
  unfold mouseMoveEvent, mbind, M_bind, bind, get.
  rewrite H. replace (p >=? 0) with true by lia.
  cbn. unfold when, mbind, M_bind, bind, emit, put. cbn.
  change (scan_word fuel doc p
            {| m_indicatorStart := -1; m_indicatorStop := -1 |})
    with (scan_word fuel doc p no_span).
  rewrite Hrun. cbn. reflexivity.
Qed.

(** The handler always returns, given fuel for its loops. *)
Lemma mouseMoveEvent_returns fuel doc p st :
  (enough doc <= fuel)%nat ->
  exists st' t, mouseMoveEvent fuel doc p st = Some (tt, st', t).
Proof.
  intros Hfuel. destruct (rescans st p) eqn:E.
  - destruct (Z_lt_dec p 0) as [Hn|Hp].
    + rewrite mouseMoveEvent_off_text by assumption. eauto.
    + destruct (mouseMoveEvent_rescan fuel doc p st E ltac:(lia) Hfuel)
        as (ws & we & reads & _ & ->). eauto.
  - rewrite mouseMoveEvent_skip by assumption. eauto.
Qed.

End Handler.

(** ** The find-results tree *)

Section FindResultsFacts.

Import FindResults.

Context {Editor : Type} `{EqDecision Editor}.

Implicit Types (root : Root Editor) (editor : Editor)
  (calls : list (Editor * list (Z * Z))).

Lemma editors_append_leaves editor leaves root :
  editors (append_leaves editor leaves root) = editors root.
Proof.
  induction root as [|g rest IH]; [reflexivity|].
  cbn [append_leaves]. destruct (decide (group_editor g = editor)).
  - reflexivity.
  - unfold editors in *. cbn. rewrite IH. reflexivity.
Qed.

Lemma editors_ensure_group editor root :
  editors (ensure_group editor root) =
    if bool_decide (editor ∈ editors root) then editors root
    else editors root ++ [editor].
Proof.
  unfold ensure_group. case_bool_decide; [reflexivity|].
  unfold editors. rewrite fmap_app. reflexivity.
Qed.

Lemma elem_of_editors_addResults editor results root e :
  e ∈ editors (addResults editor results root) <->
  e ∈ editors root \/ e = editor.
Proof.
  unfold addResults. rewrite editors_append_leaves, editors_ensure_group.
  case_bool_decide as Hin.
  - split; [auto|]. intros [?| ->]; assumption.
  - rewrite elem_of_app, list_elem_of_singleton. reflexivity.
Qed.

Lemma NoDup_editors_addResults editor results root :
  NoDup (editors root) -> NoDup (editors (addResults editor results root)).
Proof.
  intros Hnd. unfold addResults.
  rewrite editors_append_leaves, editors_ensure_group.
  case_bool_decide as Hin; [exact Hnd|].
  apply NoDup_app. split; [exact Hnd|]. split.
  - intros x Hx Hx'. apply list_elem_of_singleton in Hx'. subst. auto.
  - apply NoDup_singleton.
Qed.

(** Every group after [append_leaves] is a group from before, with the
    leaves added at its end if it is the group of the editor. *)
Lemma elem_of_append_leaves editor leaves root g' :
  NoDup (editors root) ->
  g' ∈ append_leaves editor leaves root ->
  exists g, g ∈ root /\ group_editor g' = group_editor g /\
    group_results g' =
      group_results g ++
      (if decide (group_editor g = editor) then leaves else []).
Proof.
  induction root as [|g rest IH]; intros Hnd Hin.
  - cbn in Hin. apply elem_of_nil in Hin. contradiction.
  - unfold editors in Hnd. cbn in Hnd. apply NoDup_cons in Hnd.
    destruct Hnd as [Hfresh Hnd].
    cbn [append_leaves] in Hin.
    destruct (decide (group_editor g = editor)) as [Heq|Hne].
    + apply elem_of_cons in Hin. destruct Hin as [->|Hin].
      * exists g. split; [left|]. cbn.
        rewrite decide_True by assumption. auto.
      * exists g'. split; [right; assumption|]. split; [reflexivity|].
        rewrite decide_False; [rewrite app_nil_r; reflexivity|].
        intros Heq'. apply Hfresh. rewrite Heq, <- Heq'.
        apply list_elem_of_fmap. exists g'. auto.
    + apply elem_of_cons in Hin. destruct Hin as [->|Hin].
      * exists g. split; [left|]. split; [reflexivity|].
        rewrite decide_False by assumption. rewrite app_nil_r. reflexivity.
      * destruct (IH Hnd Hin) as (g0 & Hg0 & Hrest).
        exists g0. split; [right; assumption | exact Hrest].
Qed.

Lemma results_for_snoc editor calls c :
  results_for editor (calls ++ [c]) =
    results_for editor calls ++
    (if decide (c.1 = editor) then result_item editor <$> c.2 else []).
Proof.
  unfold results_for. rewrite bind_app. cbn. rewrite app_nil_r. reflexivity.
Qed.

Lemma results_for_absent editor calls :
  editor ∉ calls.*1 -> results_for editor calls = [].
Proof.
  induction calls as [|c calls IH]; intros Hn; [reflexivity|].
  cbn in Hn. apply not_elem_of_cons in Hn. destruct Hn as [Hne Hn].
  unfold results_for in *. cbn.
  rewrite decide_False by (intros E; apply Hne; symmetry; exact E).
  cbn. apply IH. exact Hn.
Qed.

Lemma tree_inv_clear : tree_inv (Editor := Editor) [] clear.
Proof.
  split.
  - apply NoDup_nil_2.
  - intros e. reflexivity.
  - intros g Hg. apply elem_of_nil in Hg. contradiction.
Qed.

Lemma tree_inv_addResults calls root editor results :
  tree_inv calls root ->
  tree_inv (calls ++ [(editor, results)]) (addResults editor results root).
Proof.
  intros [Hnd Hed Hres]. split.
  - apply NoDup_editors_addResults. exact Hnd.
  - intros e. rewrite elem_of_editors_addResults, fmap_app, elem_of_app.
    cbn. rewrite list_elem_of_singleton, Hed. reflexivity.
  - intros g' Hg'. unfold addResults in Hg'.
    apply elem_of_append_leaves in Hg'.
    2:{ rewrite editors_ensure_group. case_bool_decide as Hin; [exact Hnd|].
        apply NoDup_app. split; [exact Hnd|]. split.
        - intros x Hx Hx'. apply list_elem_of_singleton in Hx'. subst. auto.
        - apply NoDup_singleton. }
    destruct Hg' as (g & Hg & Hed' & Hr').
    rewrite Hr', Hed', results_for_snoc. cbn [fst snd].
    assert (Hbase : group_results g = results_for (group_editor g) calls).
    { unfold ensure_group in Hg. case_bool_decide as Hin.
      - apply Hres. exact Hg.
      - apply elem_of_app in Hg. destruct Hg as [Hg|Hg].
        + apply Hres. exact Hg.
        + apply list_elem_of_singleton in Hg. subst g. cbn.
          symmetry. apply results_for_absent. rewrite <- Hed. exact Hin. }
    rewrite Hbase.
    destruct (decide (group_editor g = editor)) as [Heq|Hne].
    + rewrite decide_True by (symmetry; exact Heq). rewrite Heq. reflexivity.
    + rewrite decide_False by (intros E; apply Hne; symmetry; exact E).
      reflexivity.
Qed.

Lemma tree_inv_add_all calls : tree_inv calls (add_all calls).
Proof.
  induction calls as [|c calls IH] using rev_ind.
  - apply tree_inv_clear.
  - unfold add_all in *. rewrite foldl_snoc. destruct c as [editor results].
    apply tree_inv_addResults. exact IH.
Qed.

(** The leaves made for an editor store the offsets handed in, in order,
    and the editor. *)
Lemma results_for_offsets editor calls :
  leaf_offsets <$> results_for editor calls = matches_for editor calls.
Proof.
  unfold results_for, matches_for.
  induction calls as [|c calls IH]; [reflexivity|].
  cbn. rewrite fmap_app, IH. f_equal.
  destruct (decide (c.1 = editor)); [|reflexivity].
  rewrite <- list_fmap_compose.
  transitivity (id <$> c.2); [|apply list_fmap_id].
  apply list_fmap_ext. intros i [a b] _. reflexivity.
Qed.

Lemma results_for_editor editor calls :
  Forall (fun l => leaf_editor l = editor) (results_for editor calls).
Proof.
  unfold results_for.
  induction calls as [|c calls IH]; [constructor|].
  cbn. apply Forall_app. split; [|exact IH].
  destruct (decide (c.1 = editor)); [|constructor].
  apply Forall_fmap, Forall_true. intros r. reflexivity.
Qed.

(** A token is invalid exactly when it denotes no node. *)
Lemma token_invalid_iff root idx :
  token_invalid root idx <-> item_at root idx = None.
Proof.
  destruct idx as [|row|grow row]; cbn.
  - split; auto.
  - rewrite fmap_None. symmetry. apply lookup_ge_None.
  - destruct (root !! grow) as [g|] eqn:Eg; cbn.
    + rewrite fmap_None, lookup_ge_None. split.
      * intros H. apply H. reflexivity.
      * intros H g' Hg'. injection Hg' as <-. exact H.
    + split; [reflexivity|]. intros _ g' Hg'. discriminate.
Qed.

(** Every token resolves to a node of the tree. *)
Lemma itemForIndex_node root idx : is_node root (itemForIndex root idx).
Proof.
  unfold itemForIndex.
  destruct (item_at root idx) as [item|] eqn:E; [|reflexivity].
  destruct idx as [|row|grow row]; cbn in E; [discriminate| |].
  - destruct (root !! row) as [g|] eqn:Eg; [|discriminate].
    injection E as <-. cbn. eapply list_elem_of_lookup_2. exact Eg.
  - destruct (root !! grow) as [g|] eqn:Eg; [|discriminate]. cbn in E.
    destruct (group_results g !! row) as [l|] eqn:El; [|discriminate].
    injection E as <-. cbn. exists g. split.
    + eapply list_elem_of_lookup_2. exact Eg.
    + eapply list_elem_of_lookup_2. exact El.
Qed.

End FindResultsFacts.

(** ** The regular expression *)

Section RegexFacts.

Import Regex.

Lemma plus_set_rest {A} members (k : list byte -> option A) x :
  forall s, plus_set members s k = Some x ->
  exists rest, (List.length rest <= List.length s)%nat /\ k rest = Some x.
Proof.
  induction s as [|c s IH]; cbn; intros H; [discriminate|].
  destruct (byte_in members c); [|discriminate].
  destruct (plus_set members s k) as [y|] eqn:E.
  - injection H as ->. destruct (IH eq_refl) as (rest & Hl & Hk).
    exists rest. split; [lia | exact Hk].
  - exists s. split; [lia | exact H].
Qed.

(** A match hands a rest of the subject to its continuation. *)
Lemma rmatch_rest {A} r : forall s (k : list byte -> option A) x,
  rmatch r s k = Some x ->
  exists rest, (List.length rest <= List.length s)%nat /\ k rest = Some x.
Proof.
  induction r as [b|members|r1 IH1 r2 IH2|r1 IH1 r2 IH2|r1 IH1|members];
    intros s k x H; cbn in H.
  - destruct s as [|c s]; [discriminate|].
    destruct (Byte.eqb c b); [|discriminate].
    exists s. split; [cbn; lia | exact H].
  - destruct s as [|c s]; [discriminate|].
    destruct (byte_in members c); [|discriminate].
    exists s. split; [cbn; lia | exact H].
  - apply IH1 in H. destruct H as (rest1 & Hl1 & H).
    apply IH2 in H. destruct H as (rest2 & Hl2 & H).
    exists rest2. split; [lia | exact H].
  - destruct (rmatch r1 s k) as [y|] eqn:E.
    + injection H as ->. apply IH1 in E. exact E.
    + apply IH2 in H. exact H.
  - destruct (rmatch r1 s k) as [y|] eqn:E.
    + injection H as ->. apply IH1 in E. exact E.
    + exists s. split; [lia | exact H].
  - apply plus_set_rest in H. exact H.
Qed.

Lemma match_here_bounds r s n :
  match_here r s = Some n -> 0 <= n <= Sci.length s.
Proof.
  unfold match_here. intros H. apply rmatch_rest in H.
  destruct H as (rest & Hl & H). injection H as <-.
  unfold Sci.length. lia.
Qed.

Lemma search_from_bounds r : forall s offset a b,
  search_from r s offset = Some (a, b) ->
  offset <= a /\ a <= b /\ b <= offset + Sci.length s.
Proof.
  induction s as [|c s IH]; intros offset a b H; cbn [search_from] in H.
  - destruct (match_here r []) as [n|] eqn:E; [|discriminate].
    injection H as <- <-. apply match_here_bounds in E. lia.
  - destruct (match_here r (c :: s)) as [n|] eqn:E.
    + injection H as <- <-. apply match_here_bounds in E. lia.
    + apply IH in H. unfold Sci.length in *. cbn [List.length]. lia.
Qed.

(** The captured bounds lie within the subject. *)
Lemma search_bounds r s a b :
  search r s = Some (a, b) -> 0 <= a /\ a <= b /\ b <= Sci.length s.
Proof. unfold search. intros H. apply search_from_bounds in H. lia. Qed.

End RegexFacts.

(** ** Stored spans and the indicator *)

Section Spans.

Import Sci TextEditor Spec.

Lemma word_bounds_range doc p ws we reads :
  0 <= p -> word_bounds doc p ws we reads ->
  0 <= ws /\ 0 <= we /\ reads_within (ws - 1) we reads /\
  ((ws = p + 1 /\ we = p) \/ (ws <= p < we /\ we <= length doc)).
Proof.
  intros Hp (tl & tr & -> & Hl & Hr).
  pose proof (word_shape _ _ _ _ _ _ Hp Hl Hr) as Hshape.
  destruct Hl as [L1 _ _ L4 _], Hr as [R1 _ _ R4 _].
  split; [lia|]. split; [lia|]. split.
  - apply reads_within_app.
    + eapply reads_within_weaken; [| |exact L4]; lia.
    + eapply reads_within_weaken; [| |exact R4]; lia.
  - destruct Hshape as [(_ & Hs & He)|(_ & Hs & He)]; [left|right]; lia.
Qed.

(** A match is a part of the word: the stored span after a match lies
    within the word and is not inverted. *)
Lemma rescan_span_match doc p ws we reads cs ce :
  0 <= p -> word_bounds doc p ws we reads ->
  Regex.search url_regex (textRange doc ws we) = Some (cs, ce) ->
  ws <= ws + cs /\ ws + cs <= ws + ce /\ ws + ce <= we /\ we <= length doc.
Proof.
  intros Hp Hw Hm. pose proof (search_bounds _ _ _ _ Hm) as Hb.
  destruct (word_bounds_range _ _ _ _ _ Hp Hw) as (H1 & H2 & _ & [Hinv|Hin]).
  - rewrite textRange_backwards in Hm by lia. discriminate.
  - rewrite textRange_length in Hb by lia. lia.
Qed.

Lemma span_ok_kept fuel doc p st st' t :
  span_ok st -> mouseMoveEvent fuel doc p st = Some (tt, st', t) ->
  (enough doc <= fuel)%nat -> span_ok st'.
Proof.
  intros Hok Hrun Hfuel. destruct (rescans st p) eqn:E.
  - destruct (Z_lt_dec p 0) as [Hn|Hp].
    + rewrite mouseMoveEvent_off_text in Hrun by assumption.
      injection Hrun as <- _. left. reflexivity.
    + assert (Hp' : 0 <= p) by lia.
      destruct (mouseMoveEvent_rescan fuel doc p st E Hp' Hfuel)
        as (ws & we & reads & Hw & Heq).
      cbn zeta in Heq. rewrite Heq in Hrun. injection Hrun as <- _.
      right. unfold rescan_span.
      destruct (Regex.search url_regex (textRange doc ws we))
        as [[cs ce]|] eqn:Hm; cbn.
      * pose proof (rescan_span_match _ _ _ _ _ _ _ Hp' Hw Hm).
        pose proof (word_bounds_range _ _ _ _ _ Hp' Hw). lia.
      * pose proof (word_bounds_range _ _ _ _ _ Hp' Hw). lia.
  - rewrite mouseMoveEvent_skip in Hrun by assumption.
    injection Hrun as <- _. exact Hok.
Qed.

Lemma in_range_iff start len x :
  in_range start len x = true <-> start <= x < start + len.
Proof. unfold in_range. rewrite andb_true_iff. lia. Qed.

Lemma paint_all_app t1 t2 s :
  paint_all (t1 ++ t2) s = paint_all t2 (paint_all t1 s).
Proof. unfold paint_all. apply foldl_app. Qed.

Lemma paint_all_reads lo hi t s :
  reads_within lo hi t -> paint_all t s = s.
Proof.
  intros H. revert s. induction H as [|c t (pos & -> & _) _ IH]; intros s.
  - reflexivity.
  - cbn. apply IH.
Qed.

(** The indicator after a scan: the old call to clear, then the match. *)
Lemma paint_all_rescan doc ws we reads m a b s x :
  reads_within (ws - 1) we reads ->
  paint_all (IndicatorClearRange a b
               :: rescan_calls doc ws we reads m ++ [BaseMouseMoveEvent])
    s x =
  match m with
  | Some (cs, ce) => in_range (ws + cs) (ce - cs) x || unfill a b s x
  | None => unfill a b s x
  end.
Proof.
  intros Hr. unfold rescan_calls.
  change (paint_all (IndicatorClearRange a b :: ?t) s)
    with (paint_all t (unfill a b s)).
  rewrite !paint_all_app, (paint_all_reads _ _ _ _ Hr).
  destruct m as [[cs ce]|]; reflexivity.
Qed.

End Spans.

(** * The hover detector *)

Section HoverClaims.

Import Sci TextEditor Spec.

(** What the body of the handler does at a valid position whenever its
    test lets the event in: the stored span is the word, or the match
    within the word, and the indicator is filled over the match only. *)
Lemma rescan_outcome fuel doc p st s :
  rescans st p = true -> 0 <= p -> (enough doc <= fuel)%nat ->
  exists ws we reads,
    word_bounds doc p ws we reads /\
    let m := Regex.search url_regex (textRange doc ws we) in
    let r := mouseMoveEvent fuel doc p st in
    state_after r = Some (rescan_span ws we m) /\
    Forall (fun c => is_paint c = false) (rescan_calls doc ws we reads None) /\
    forall x,
      paint_all (calls_of r) s x =
        match m with
        | Some (cs, ce) =>
            in_range (ws + cs) (ce - cs) x
            || unfill (m_indicatorStart st) (m_indicatorStop st) s x
        | None => unfill (m_indicatorStart st) (m_indicatorStop st) s x
        end.
Proof.
  intros Ht Hp Hfuel.
  destruct (mouseMoveEvent_rescan fuel doc p st Ht Hp Hfuel)
    as (ws & we & reads & Hw & Heq).
  exists ws, we, reads. split; [exact Hw|]. cbn zeta in *. rewrite Heq.
  destruct (word_bounds_range _ _ _ _ _ Hp Hw) as (_ & _ & Hr & _).
  split; [reflexivity|]. split.
  - unfold rescan_calls. apply Forall_app. split.
    + eapply Forall_impl; [exact Hr|]. intros c (pos & -> & _). reflexivity.
    + repeat constructor.
  - intros x. cbn [calls_of]. apply paint_all_rescan. exact Hr.
Qed.

(** At a character that is not valid in a URL the body of the handler
    stores the inverted pair (p + 1, p) and fills nothing. *)
Lemma rescan_not_url fuel doc p st :
  rescans st p = true -> 0 <= p -> (enough doc <= fuel)%nat ->
  TextFactory.isCharUrlValid (charAt doc p) = false ->
  exists reads,
    reads_within p p reads /\
    mouseMoveEvent fuel doc p st =
      Some (tt, {| m_indicatorStart := p + 1; m_indicatorStop := p |},
            IndicatorClearRange (m_indicatorStart st) (m_indicatorStop st)
              :: reads
              ++ [TextRange (p + 1) p; RegexMatch []; BaseMouseMoveEvent]).
Proof.
  intros Ht Hp Hfuel Hv.
  destruct (mouseMoveEvent_rescan fuel doc p st Ht Hp Hfuel)
    as (ws & we & reads & Hw & Heq).
  cbn zeta in Heq. rewrite Heq. clear Heq.
  destruct (word_bounds_range _ _ _ _ _ Hp Hw) as (_ & _ & Hr & _).
  destruct Hw as (tl & tr & -> & Hl & Hrs).
  destruct (word_shape _ _ _ _ _ _ Hp Hl Hrs) as [(_ & Hs & ->)|(Hv' & _)];
    [|congruence].
  assert (ws = p + 1) as -> by lia.
  replace (p + 1 - 1) with p in Hr by lia.
  exists (tl ++ tr). split; [exact Hr|].
  unfold rescan_calls, rescan_span.
  rewrite textRange_backwards by lia. rewrite search_empty.
  rewrite app_nil_r, <- app_assoc. reflexivity.
Qed.

(** The hover test of the specification: from the sentinel, a move into the
    scheme of the URL stores [4, 28), the text of which is the URL without
    the blanks around it, and fills the indicator over these 24 bytes. *)
Example hover_over_scheme :
  let doc := bytes "see https://example.com/path here" in
  let r := mouseMoveEvent (enough doc) doc 6 no_span in
  state_after r = Some {| m_indicatorStart := 4; m_indicatorStop := 28 |} /\
  textRange doc 4 28 = bytes "https://example.com/path" /\
  filter (fun c => is_paint c) (calls_of r) =
    [IndicatorClearRange (-1) (-1); IndicatorFillRange 4 24] /\
  forall x, paint_all (calls_of r) blank x = true <-> 4 <= x < 28.
Proof.
  cbn zeta. split; [vm_compute; reflexivity|].
  split; [vm_compute; reflexivity|]. split; [vm_compute; reflexivity|].
  intros x.
  replace (calls_of _) with
    (IndicatorClearRange (-1) (-1)
       :: rescan_calls (bytes "see https://example.com/path here") 4 28
            (CharAt <$> (reverse (seqZ 3 4) ++ seqZ 6 23)) (Some (0, 24))
       ++ [BaseMouseMoveEvent]) by (vm_compute; reflexivity).
  rewrite paint_all_rescan.
  - unfold unfill, blank. rewrite andb_false_r, orb_false_r.
    rewrite in_range_iff. lia.
  - vm_compute. repeat constructor; eexists; (split; [reflexivity|]);
      split; discriminate.
Qed.

(** C1, where the code departs from it: with the span [4, 28) of the URL
    stored and highlighted, a mouse move at offset 10, within the span,
    passes the test of the handler; the handler clears the indicator, runs
    both loops and the regular expression again and fills the indicator
    again. The same happens within the stored bounds of a word that is not
    a URL. *)
Theorem C1_move_within_span_rescans :
  let doc := bytes "see https://example.com/path here" in
  let st := {| m_indicatorStart := 4; m_indicatorStop := 28 |} in
  let plain := bytes "plainword" in
  let st' := {| m_indicatorStart := 0; m_indicatorStop := 9 |} in
  within st 10 /\
  mouseMoveEvent (enough doc) doc 10 st =
    Some (tt, st,
          IndicatorClearRange 4 28
            :: (CharAt <$> (reverse (seqZ 3 8) ++ seqZ 10 19))
            ++ [TextRange 4 28;
                RegexMatch (bytes "https://example.com/path");
                IndicSetHoverStyle 0 INDIC_ROUNDBOX; SetIndicatorCurrent 0;
                IndicatorFillRange 4 24; BaseMouseMoveEvent]) /\
  within st' 5 /\
  mouseMoveEvent (enough plain) plain 5 st' =
    Some (tt, st',
          IndicatorClearRange 0 9
            :: (CharAt <$> (reverse (seqZ (-1) 7) ++ seqZ 5 5))
            ++ [TextRange 0 9; RegexMatch plain; BaseMouseMoveEvent]).
Proof.
  cbn zeta. unfold within. cbn [m_indicatorStart m_indicatorStop].
  repeat split; try lia; vm_compute; reflexivity.
Qed.

(** C2, where the code departs from it: on the text " http://a" a move at
    offset 0 (a blank) stores the pair (1, 0); the next move at offset 1,
    which is not within that pair, fails the test of the handler, so
    nothing is scanned, stored or highlighted, although the word at offset
    1 is [1, 9) and the regular expression matches all of it (as the same
    move does from the sentinel). *)
Theorem C2_move_after_blank_skips_url :
  let doc := bytes " http://a" in
  let st := {| m_indicatorStart := 1; m_indicatorStop := 0 |} in
  state_after (mouseMoveEvent (enough doc) doc 0 no_span) = Some st /\
  ~ within st 1 /\
  mouseMoveEvent (enough doc) doc 1 st = Some (tt, st, [BaseMouseMoveEvent]) /\
  Regex.search url_regex (textRange doc 1 9) = Some (0, 8) /\
  mouseMoveEvent (enough doc) doc 1 no_span =
    Some (tt, {| m_indicatorStart := 1; m_indicatorStop := 9 |},
          IndicatorClearRange (-1) (-1)
            :: (CharAt <$> ([1; 0] ++ seqZ 1 9))
            ++ [TextRange 1 9; RegexMatch (bytes "http://a");
                IndicSetHoverStyle 0 INDIC_ROUNDBOX; SetIndicatorCurrent 0;
                IndicatorFillRange 1 8; BaseMouseMoveEvent]).
Proof.
  cbn zeta. unfold within. cbn [m_indicatorStart m_indicatorStop].
  repeat split; try lia; vm_compute; reflexivity.
Qed.

End HoverClaims.

Section ExpansionClaims.

Import Sci TextEditor Spec.

(** C3, as it is written, fails on the text "ab" with the mouse at offset
    0: the word reaches both ends of the document, and the loops ask
    [charAt] for position -1 and for position 2, the length of the
    document. *)
Lemma C3_loops_read_beyond_both_ends :
  let doc := bytes "ab" in
  length doc = 2 /\
  scan_left (enough doc) doc 0 no_span
    = Some (-1, no_span, [CharAt 0; CharAt (-1)]) /\
  scan_right (enough doc) doc 0 no_span
    = Some (2, no_span, [CharAt 0; CharAt 1; CharAt 2]) /\
  ~ reads_within 0 (length doc - 1)
      (calls_of (scan_left (enough doc) doc 0 no_span)) /\
  ~ reads_within 0 (length doc - 1)
      (calls_of (scan_right (enough doc) doc 0 no_span)).
Proof.
  cbn zeta. split; [reflexivity|]. split; [reflexivity|].
  split; [reflexivity|]. split; intros H.
  - change (reads_within 0 1 [CharAt 0; CharAt (-1)]) in H.
    apply Forall_cons in H. destruct H as [_ H].
    apply Forall_cons in H. destruct H as [(pos & Heq & Hb) _].
    injection Heq as <-. lia.
  - change (reads_within 0 1 [CharAt 0; CharAt 1; CharAt 2]) in H.
    apply Forall_cons in H. destruct H as [_ H].
    apply Forall_cons in H. destruct H as [_ H].
    apply Forall_cons in H. destruct H as [(pos & Heq & Hb) _].
    injection Heq as <-. lia.
Qed.

(** C3, as amended: for every valid offset p, 0 <= p <= length, both loops
    terminate, given fuel for the length of the document; the left loop
    stops at wordStart - 1 >= -1 and the right loop at wordEnd <= length,
    so 0 <= wordStart and wordEnd <= length; the loops have no test of
    their own for the ends of the document: each asks [charAt] for the
    position it stops at, which is -1 or the length when the word reaches
    an end, and no position below -1 or above the length is asked for. *)
Theorem C3_expansion_stops_at_document_ends fuel doc p st :
  0 <= p <= length doc -> (enough doc <= fuel)%nat ->
  exists s e tl tr,
    scan_left fuel doc p st = Some (s, st, tl) /\
    scan_right fuel doc p st = Some (e, st, tr) /\
    0 <= s + 1 /\ e <= length doc /\
    reads_within (-1) (length doc) (tl ++ tr) /\
    In (CharAt s) tl /\ In (CharAt e) tr.
Proof.
  intros Hp Hfuel.
  destruct (scan_left_spec fuel doc p st (enough_left _ _ _ Hfuel))
    as (s & tl & Hs & [L1 _ _ L4 L5]).
  destruct (scan_right_spec fuel doc p st (enough_right _ _ _ Hfuel))
    as (e & tr & He & [R1 _ _ R4 R5]).
  exists s, e, tl, tr. repeat split; try assumption; try lia.
  apply reads_within_app.
  - eapply reads_within_weaken; [| |exact L4]; lia.
  - eapply reads_within_weaken; [| |exact R4]; lia.
Qed.

Lemma C3_expansion_witness :
  exists s e tl tr,
    scan_left 4 (bytes "ab") 0 no_span = Some (s, no_span, tl) /\
    scan_right 4 (bytes "ab") 0 no_span = Some (e, no_span, tr) /\
    0 <= s + 1 /\ e <= length (bytes "ab") /\
    reads_within (-1) (length (bytes "ab")) (tl ++ tr) /\
    In (CharAt s) tl /\ In (CharAt e) tr.
Proof.
  apply (C3_expansion_stops_at_document_ends 4 (bytes "ab") 0 no_span).
  - unfold length. simpl. lia.
  - unfold enough. simpl. lia.
Defined.

End ExpansionClaims.

Section ClearingClaims.

Import Sci TextEditor Spec.

(** C5, where the code departs from it: [indicatorClearRange] takes a
    start and a length, as [indicatorFillRange] does, and the handler
    hands it the stop offset for the length. With the URL span [4, 28)
    stored, a move at offset 30 makes the handler clear from 4 over a
    length of 28, that is [4, 32): offset 30, outside the old span, loses
    an indicator it carried. The state is then reset to the sentinel and
    the scan goes on from there. *)
Theorem C5_clear_takes_stop_for_length :
  let doc := bytes "see https://example.com/path here" in
  let st := {| m_indicatorStart := 4; m_indicatorStop := 28 |} in
  let r := mouseMoveEvent (enough doc) doc 30 st in
  ~ within st 30 /\
  r = Some (tt, {| m_indicatorStart := 29; m_indicatorStop := 33 |},
            IndicatorClearRange 4 28
              :: (CharAt <$> ([30; 29; 28] ++ seqZ 30 4))
              ++ [TextRange 29 33; RegexMatch (bytes "here");
                  BaseMouseMoveEvent]) /\
  (forall x, in_range 4 28 x = true <-> 4 <= x < 32) /\
  paint_all (calls_of r) (fill 29 4 (fill 4 24 blank)) 30 = false /\
  fill 29 4 (fill 4 24 blank) 30 = true.
Proof.
  cbn zeta. unfold within. cbn [m_indicatorStart m_indicatorStop].
  split; [lia|]. split; [vm_compute; reflexivity|].
  split; [intros x; rewrite in_range_iff; lia|].
  split; vm_compute; reflexivity.
Qed.

(** C6: when the mouse is over no character (a negative offset), the
    stored members become the sentinel, the indicator is gone from every
    position of the old span, and neither a loop nor the regular
    expression runs. *)
Theorem C6_off_text_clears_span fuel doc p st s :
  p < 0 -> span_ok st ->
  let r := mouseMoveEvent fuel doc p st in
  state_after r = Some no_span /\
  Forall (fun c => is_scan c = false) (calls_of r) /\
  (forall x, within st x -> paint_all (calls_of r) s x = false).
Proof.
  intros Hp Hok. cbn zeta. destruct (rescans st p) eqn:E.
  - rewrite mouseMoveEvent_off_text by assumption. cbn [state_after calls_of].
    split; [reflexivity|]. split; [repeat constructor|].
    intros x Hx. unfold within in Hx. cbn. unfold unfill.
    destruct Hok as [->|[H1 H2]]; [cbn in Hx; lia|].
    replace (in_range (m_indicatorStart st) (m_indicatorStop st) x)
      with true; [reflexivity|].
    symmetry. apply in_range_iff. lia.
  - rewrite mouseMoveEvent_skip by assumption. cbn [state_after calls_of].
    apply rescans_false_iff in E.
    destruct Hok as [->|[H1 H2]]; [|lia].
    split; [reflexivity|]. split; [repeat constructor|].
    intros x Hx. unfold within in Hx. cbn in Hx. lia.
Qed.

Lemma C6_off_text_witness :
  let st := {| m_indicatorStart := 4; m_indicatorStop := 28 |} in
  let r := mouseMoveEvent 0 (bytes "see https://example.com/path here")
             (-1) st in
  state_after r = Some no_span /\
  Forall (fun c => is_scan c = false) (calls_of r) /\
  (forall x, within st x -> paint_all (calls_of r) (fill 4 24 blank) x = false).
Proof.
  apply (C6_off_text_clears_span 0
           (bytes "see https://example.com/path here") (-1)
           {| m_indicatorStart := 4; m_indicatorStop := 28 |}
           (fill 4 24 blank)).
  - lia.
  - right. simpl. lia.
Defined.

(** C9, where the code departs from it: on a text of two blanks a move at
    offset 0 stores the pair (1, 0); the next move at offset 1, a blank
    that is not within that pair, fails the test of the handler, and the
    stored pair stays (1, 0) where the claim has (2, 1). *)
Theorem C9_blank_after_blank_keeps_pair :
  let doc := bytes "  " in
  let st := {| m_indicatorStart := 1; m_indicatorStop := 0 |} in
  state_after (mouseMoveEvent (enough doc) doc 0 no_span) = Some st /\
  ~ within st 1 /\
  TextFactory.isCharUrlValid (charAt doc 1) = false /\
  mouseMoveEvent (enough doc) doc 1 st = Some (tt, st, [BaseMouseMoveEvent]) /\
  st <> {| m_indicatorStart := 1 + 1; m_indicatorStop := 1 |}.
Proof.
  cbn zeta. unfold within. cbn [m_indicatorStart m_indicatorStop].
  split; [vm_compute; reflexivity|]. split; [lia|].
  split; [vm_compute; reflexivity|]. split; [vm_compute; reflexivity|].
  discriminate.
Qed.

End ClearingClaims.

(** * The click on a highlighted span *)

Section ClickClaims.

Import Sci TextEditor Spec.

(** C4, as it is written, fails for a click on the indicator with Ctrl
    and Shift held: the Ctrl key is held, and the browser is not asked to
    open anything. *)
Lemma C4_ctrl_shift_click_opens_nothing :
  let doc := bytes "see https://example.com/path here" in
  let st := {| m_indicatorStart := 4; m_indicatorStop := 28 |} in
  let pscn := {| nmhdr_code := SCN_INDICATORCLICK;
                 modifiers := Z.lor SCMOD_CTRL SCMOD_SHIFT |} in
  ctrl_held (modifiers pscn) = true /\
  notify doc pscn st = Some (tt, st, []).
Proof. split; reflexivity. Qed.

(** C4, as amended: a click on the indicator ([SCN_INDICATORCLICK]) whose
    modifiers are exactly Ctrl fetches the text of the document from
    [m_indicatorStart] to [m_indicatorStop] and makes exactly one call to
    the browser, with that text; every other notification makes no call at
    all; the stored span is left as it is. *)
Theorem C4_ctrl_click_opens_span doc st pscn :
  notify doc pscn st =
    Some (tt, st,
          if (nmhdr_code pscn =? SCN_INDICATORCLICK)
             && (modifiers pscn =? SCMOD_CTRL)
          then [TextRange (m_indicatorStart st) (m_indicatorStop st);
                OpenUrlInExternalBrowser
                  (textRange doc (m_indicatorStart st) (m_indicatorStop st))]
          else []).
Proof.
  unfold notify, mbind, M_bind, bind, get, when.
  destruct ((nmhdr_code pscn =? SCN_INDICATORCLICK)
            && (modifiers pscn =? SCMOD_CTRL)); reflexivity.
Qed.

(** C10: a notification whose modifiers are not exactly Ctrl, Ctrl with
    another key and no key at all included, makes no call to the
    browser. *)
Theorem C10_only_ctrl_alone_opens doc st pscn :
  modifiers pscn <> SCMOD_CTRL ->
  Forall (fun c => is_open_url c = false) (calls_of (notify doc pscn st)).
Proof.
  intros Hne. unfold notify, mbind, M_bind, bind, get, when.
  replace (modifiers pscn =? SCMOD_CTRL) with false by lia.
  rewrite andb_false_r. constructor.
Qed.

Lemma C10_ctrl_shift_witness :
  Forall (fun c => is_open_url c = false)
    (calls_of (notify (bytes "see https://example.com/path here")
                 {| nmhdr_code := SCN_INDICATORCLICK;
                    modifiers := SCMOD_CTRL + SCMOD_SHIFT |}
                 {| m_indicatorStart := 4; m_indicatorStop := 28 |})).
Proof.
  apply (C10_only_ctrl_alone_opens
           (bytes "see https://example.com/path here")
           {| m_indicatorStart := 4; m_indicatorStop := 28 |}
           {| nmhdr_code := SCN_INDICATORCLICK;
              modifiers := SCMOD_CTRL + SCMOD_SHIFT |}).
  simpl. unfold SCMOD_CTRL, SCMOD_SHIFT. lia.
Defined.

End ClickClaims.

(** * The find-results model *)

Section FindResultsClaims.

Import FindResults.

Context {Editor : Type} `{EqDecision Editor}.

(** C7: after any sequence of [addResults] calls on a cleared model, Root
    has as many groups as there are distinct editors among the calls, no
    two groups are for the same editor, every editor of a call has its
    group, and the leaves of a group are one per offset pair of the calls
    for its editor, in call order: each leaf stores the editor of its group,
    and the (start, end) pairs the leaves store are, in order, the pairs
    handed in for that editor, first call first. *)
Theorem C7_one_group_per_document (calls : list (Editor * list (Z * Z))) :
  let root := add_all calls in
  List.length root = List.length (remove_dups calls.*1) /\
  NoDup (editors root) /\
  (forall e, e ∈ calls.*1 -> exists g, g ∈ root /\ group_editor g = e) /\
  (forall g, g ∈ root ->
     Forall (fun l => leaf_editor l = group_editor g) (group_results g) /\
     (fun l => (leaf_start l, leaf_end l)) <$> group_results g =
       matches_for (group_editor g) calls).
Proof.
  cbn zeta. destruct (tree_inv_add_all calls) as [Hnd Hed Hres].
  split; [|split; [exact Hnd|split]].
  3:{ intros g Hg. rewrite (Hres g Hg). split.
      - apply results_for_editor.
      - apply (results_for_offsets (group_editor g) calls). }
  - transitivity (List.length (editors (add_all calls))).
    + unfold editors. rewrite length_fmap. reflexivity.
    + apply Permutation_length, NoDup_Permutation.
      * exact Hnd.
      * apply NoDup_remove_dups.
      * intros e. rewrite Hed, elem_of_remove_dups. reflexivity.
  - intros e He. apply Hed in He. unfold editors in He.
    apply list_elem_of_fmap in He. destruct He as (g & -> & Hg).
    exists g. auto.
Qed.

(** C8: a token resolves to Root exactly when it is invalid, that is null
    or with a row the tree does not have; every other token resolves to the
    group or the leaf at its rows, so that Root stands for no selection; and
    whatever the token is, the result is a node of the tree. *)
Theorem C8_invalid_index_resolves_to_root (root : Root Editor)
    (idx : ModelIndex) :
  (token_invalid root idx <-> itemForIndex root idx = RootItem root) /\
  is_node root (itemForIndex root idx) /\
  (forall row g, root !! row = Some g ->
     itemForIndex root (GroupIndex row) = EditorItem g /\
     forall sub l, group_results g !! sub = Some l ->
       itemForIndex root (ResultIndex row sub) = ResultItem l).
Proof.
  split; [|split].
  - rewrite token_invalid_iff. unfold itemForIndex.
    destruct (item_at root idx) as [item|] eqn:E.
    + split; [discriminate|]. intros ->.
      destruct idx as [|row|grow row]; cbn in E; [discriminate| |].
      * destruct (root !! row); discriminate.
      * destruct (root !! grow) as [g|]; [|discriminate]. cbn in E.
        destruct (group_results g !! row); discriminate.
    + split; reflexivity.
  - apply itemForIndex_node.
  - intros row g Hg. unfold itemForIndex. cbn. rewrite Hg. cbn.
    split; [reflexivity|]. intros sub l Hl. rewrite Hl. reflexivity.
Qed.

End FindResultsClaims.

Section FindResultsExamples.

Import FindResults.

(** Two calls for one editor: one group, two leaves, in call order. *)
Example addResults_twice :
  add_all [(7%nat, [(1, 2)]); (7%nat, [(3, 4)])] =
    [ {| group_editor := 7%nat;
         group_results := [ {| leaf_editor := 7%nat;
                               leaf_start := 1; leaf_end := 2 |};
                            {| leaf_editor := 7%nat;
                               leaf_start := 3; leaf_end := 4 |} ] |} ].
Proof. reflexivity. Qed.

(** Tokens on that tree: the null token and a leaf row that is not there
    resolve to Root, the rows that are there to their group and leaf. *)
Example itemForIndex_on_one_group :
  let root := add_all [(7%nat, [(1, 2)]); (7%nat, [(3, 4)])] in
  itemForIndex root NullIndex = RootItem root /\
  itemForIndex root (ResultIndex 0 2) = RootItem root /\
  itemForIndex root (GroupIndex 1) = RootItem root /\
  itemForIndex root (ResultIndex 0 1) =
    ResultItem {| leaf_editor := 7%nat; leaf_start := 3; leaf_end := 4 |}.
Proof. repeat split. Qed.

End FindResultsExamples.

(** * Further properties of the hover detector *)

(** ** What a match of the pattern looks like *)

Section PatternFacts.

Import Sci Regex Urls.

Lemma rmatch_lit {A} bs : forall s (k : list byte -> option A) x,
  rmatch (lit bs) s k = Some x ->
  exists rest, s = bs ++ rest /\ k rest = Some x.
Proof.
  induction bs as [|b bs IH]; intros s k x H.
  - exists s. split; [reflexivity|]. destruct s as [|c s]; exact H.
  - destruct bs as [|b' bs].
    + cbn in H. destruct s as [|c s]; [discriminate|].
      destruct (Byte.eqb c b) eqn:E; [|discriminate].
      apply Byte.byte_dec_bl in E. subst c. exists s. auto.
    + change (lit (b :: b' :: bs)) with (Seq (Chr b) (lit (b' :: bs))) in H.
      cbn [rmatch] in H. destruct s as [|c s]; [discriminate|].
      destruct (Byte.eqb c b) eqn:E; [|discriminate].
      apply Byte.byte_dec_bl in E. subst c.
      apply IH in H. destruct H as (rest & -> & Hk). exists rest. auto.
Qed.

(** The repetition of the class takes at least one byte of the class. *)
Lemma plus_set_some {A} members (k : list byte -> option A) x :
  forall s, plus_set members s k = Some x ->
  exists c s', s = c :: s' /\ byte_in members c = true.
Proof.
  intros [|c s] H; cbn in H; [discriminate|].
  destruct (byte_in members c) eqn:E; [|discriminate]. eauto.
Qed.

(** On a subject of bytes of the class the repetition takes all of it. *)
Lemma plus_set_all {A} members (k : list byte -> option A) :
  is_Some (k []) ->
  forall s, s <> [] -> Forall (fun c => byte_in members c = true) s ->
  plus_set members s k = k [].
Proof.
  intros [y Hy] s. induction s as [|c s IH]; intros Hne Hall; [congruence|].
  apply Forall_cons in Hall. destruct Hall as [Hc Hall].
  cbn. rewrite Hc. destruct s as [|c' s]; [reflexivity|].
  rewrite IH by (congruence || assumption). rewrite Hy. reflexivity.
Qed.

(** A match of the pattern begins with one of the four schemes, and goes on
    with the repetition of the class. *)
Lemma rmatch_url {A} s (k : list byte -> option A) x :
  rmatch url_regex s k = Some x ->
  exists scheme rest,
    scheme ∈ schemes /\ s = scheme ++ rest /\
    plus_set url_class rest k = Some x.
Proof.
  unfold url_regex. cbn [rmatch]. intros H.
  destruct (rmatch (str "http") s _) as [y|] eqn:E1.
  - injection H as ->. apply rmatch_lit in E1.
    destruct E1 as (r1 & -> & E1). cbn [rmatch] in E1.
    destruct r1 as [|c r1].
    + apply (rmatch_lit (bytes "://")) in E1.
      destruct E1 as (r2 & Hr & _). discriminate.
    + destruct (Byte.eqb c "s") eqn:Ec.
      * apply Byte.byte_dec_bl in Ec. subst c.
        destruct (rmatch (str "://") r1 _) as [z|] eqn:E2.
        -- injection E1 as ->. apply rmatch_lit in E2.
           destruct E2 as (r2 & -> & E2).
           exists (bytes "https://"), r2. split; [|split; [reflexivity|exact E2]].
           unfold schemes. repeat constructor.
        -- apply (rmatch_lit (bytes "://")) in E1.
           destruct E1 as (r2 & Hr & _). discriminate.
      * apply (rmatch_lit (bytes "://")) in E1.
        destruct E1 as (r2 & -> & E1).
        exists (bytes "http://"), r2. split; [|split; [reflexivity|exact E1]].
        unfold schemes. repeat constructor.
  - destruct (rmatch (str "ftp://") s _) as [y|] eqn:E2.
    + injection H as ->. apply rmatch_lit in E2.
      destruct E2 as (r & -> & E2).
      exists (bytes "ftp://"), r. split; [|split; [reflexivity|exact E2]].
      unfold schemes. repeat constructor.
    + apply rmatch_lit in H. destruct H as (r & -> & H).
      exists (bytes "mailto:"), r. split; [|split; [reflexivity|exact H]].
      unfold schemes. repeat constructor.
Qed.

Lemma scheme_length scheme :
  scheme ∈ schemes -> 6 <= length scheme <= 8.
Proof.
  unfold schemes. intros H.
  repeat (apply elem_of_cons in H; destruct H as [->|H];
          [vm_compute; split; discriminate|]).
  apply elem_of_nil in H. contradiction.
Qed.

(** The match found by a search: where it starts, the subject splits into
    what is skipped and what is matched from. *)
Lemma search_from_split r : forall s offset a b,
  search_from r s offset = Some (a, b) ->
  exists pre suf,
    s = pre ++ suf /\ a = offset + length pre /\
    match_here r suf = Some (b - a).
Proof.
  induction s as [|c s IH]; intros offset a b H; cbn [search_from] in H.
  - destruct (match_here r []) as [n|] eqn:E; [|discriminate].
    injection H as <- <-. exists [], []. split; [reflexivity|].
    split; [unfold length; cbn; lia|]. rewrite E. f_equal. lia.
  - destruct (match_here r (c :: s)) as [n|] eqn:E.
    + injection H as <- <-. exists [], (c :: s). split; [reflexivity|].
      split; [unfold length; cbn; lia|]. rewrite E. f_equal. lia.
    + apply IH in H. destruct H as (pre & suf & -> & -> & Hm).
      exists (c :: pre), suf. split; [reflexivity|].
      split; [unfold length; cbn [List.length]; lia | exact Hm].
Qed.

(** A match on a word of bytes of the class: a scheme, at least one more
    byte, and nothing of the word is left after it. *)
Lemma search_url_word text a b :
  Forall (fun c => in_class c = true) text ->
  Regex.search url_regex text = Some (a, b) ->
  b = length text /\
  exists pre scheme rest,
    text = pre ++ scheme ++ rest /\ a = length pre /\
    scheme ∈ schemes /\ rest <> [].
Proof.
  intros Hall H. unfold Regex.search in H. apply search_from_split in H.
  destruct H as (pre & suf & -> & -> & Hm).
  unfold match_here in Hm. apply rmatch_url in Hm.
  destruct Hm as (scheme & rest & Hs & -> & Hp).
  pose proof (plus_set_some _ _ _ _ Hp) as (c & rest' & -> & _).
  apply Forall_app in Hall. destruct Hall as [_ Hall].
  apply Forall_app in Hall. destruct Hall as [_ Hall].
  rewrite plus_set_all in Hp; [|eexists; reflexivity|discriminate|exact Hall].
  injection Hp as Hb. split.
  - unfold length in *. rewrite !length_app in *. cbn [List.length] in *. lia.
  - exists pre, scheme, (c :: rest'). repeat split; try assumption; try lia.
    discriminate.
Qed.

End PatternFacts.

(** ** The text of the word *)

Section WordFacts.

Import Sci TextEditor Spec Urls.

Lemma valid_code_in_class b :
  TextFactory.isCharUrlValid (code b) = true -> in_class b = true.
Proof. destruct b; vm_compute; intros H; exact H || reflexivity. Qed.

Lemma charAt_lookup doc q b :
  0 <= q -> doc !! Z.to_nat q = Some b -> charAt doc q = code b.
Proof.
  intros Hq Hb. pose proof (lookup_lt_Some _ _ _ Hb) as Hlt.
  unfold charAt, length. rewrite Hb.
  replace ((0 <=? q) && (q <? Z.of_nat (List.length doc))) with true;
    [reflexivity|].
  symmetry. apply andb_true_iff. lia.
Qed.

(** Between the two stops every character is valid in a URL. *)
Lemma word_run doc p ws we reads q :
  word_bounds doc p ws we reads -> ws <= q < we ->
  TextFactory.isCharUrlValid (charAt doc q) = true.
Proof.
  intros (tl & tr & _ & [_ _ L3 _ _] & [_ _ R3 _ _]) Hq.
  destruct (Z_le_dec q p); [apply L3 | apply R3]; lia.
Qed.

Lemma word_text_in_class doc p ws we reads :
  0 <= p -> word_bounds doc p ws we reads ->
  Forall (fun c => in_class c = true) (textRange doc ws we).
Proof.
  intros Hp Hw.
  destruct (word_bounds_range _ _ _ _ _ Hp Hw) as (H1 & _ & _ & [Hinv|Hin]).
  - rewrite textRange_backwards by lia. constructor.
  - apply Forall_lookup. intros i b Hb.
    pose proof (lookup_lt_Some _ _ _ Hb) as Hlt.
    pose proof (textRange_length doc ws we ltac:(lia) ltac:(lia)) as Hlen.
    unfold length in Hlen.
    rewrite textRange_lookup in Hb by lia.
    apply valid_code_in_class.
    rewrite <- (charAt_lookup doc (ws + Z.of_nat i)) by
      (try lia; replace (Z.to_nat (ws + Z.of_nat i))
         with (Z.to_nat ws + i)%nat by lia; exact Hb).
    eapply word_run; [exact Hw | lia].
Qed.

(** The text from a later start is the rest of the text. *)
Lemma textRange_drop doc ws we cs :
  0 <= ws -> 0 <= cs -> ws + cs <= we ->
  textRange doc (ws + cs) we = drop (Z.to_nat cs) (textRange doc ws we).
Proof.
  intros H1 H2 H3. unfold textRange.
  destruct (ws + cs >? we) eqn:E1; [lia|].
  destruct (ws >? we) eqn:E2; [lia|].
  rewrite !take_drop_commute, drop_drop. f_equal; [lia|]. f_equal. lia.
Qed.

(** The calls to fill the indicator among the calls of a scan. *)
Lemma fill_in_rescan_calls doc ws we reads m x y a l lo hi :
  reads_within lo hi reads ->
  In (IndicatorFillRange a l)
     (IndicatorClearRange x y
        :: rescan_calls doc ws we reads m ++ [BaseMouseMoveEvent]) ->
  exists cs ce, m = Some (cs, ce) /\ a = ws + cs /\ l = ce - cs.
Proof.
  intros Hr [H|H]; [discriminate|].
  apply in_app_or in H. destruct H as [H|[H|[]]]; [|discriminate].
  unfold rescan_calls in H. apply in_app_or in H. destruct H as [H|H].
  - unfold reads_within in Hr. rewrite Forall_forall in Hr.
    apply list_elem_of_In in H. destruct (Hr _ H) as (pos & Hc & _).
    discriminate.
  - destruct H as [H|[H|H]]; [discriminate|discriminate|].
    destruct m as [[cs ce]|]; [|contradiction].
    destruct H as [H|[H|[H|[]]]]; try discriminate.
    injection H as <- <-. eauto.
Qed.

End WordFacts.

(** ** The handler as a whole *)

Section HandlerFacts.

Import Sci TextEditor Spec Urls.

Lemma scan_left_more_fuel fuel : forall fuel' doc p st r,
  scan_left fuel doc p st = Some r -> (fuel <= fuel')%nat ->
  scan_left fuel' doc p st = Some r.
Proof.
  induction fuel as [|fuel IH]; intros fuel' doc p st r H Hle; [discriminate|].
  destruct fuel' as [|fuel']; [lia|].
  rewrite scan_left_step in *.
  destruct (TextFactory.isCharUrlValid (charAt doc p)); [|exact H].
  destruct (scan_left fuel doc (p - 1) st) as [[[r0 st0] t0]|] eqn:E;
    [|discriminate].
  rewrite (IH fuel' _ _ _ _ E) by lia. exact H.
Qed.

Lemma scan_right_more_fuel fuel : forall fuel' doc p st r,
  scan_right fuel doc p st = Some r -> (fuel <= fuel')%nat ->
  scan_right fuel' doc p st = Some r.
Proof.
  induction fuel as [|fuel IH]; intros fuel' doc p st r H Hle; [discriminate|].
  destruct fuel' as [|fuel']; [lia|].
  rewrite scan_right_step in *.
  destruct (TextFactory.isCharUrlValid (charAt doc p)); [|exact H].
  destruct (scan_right fuel doc (p + 1) st) as [[[r0 st0] t0]|] eqn:E;
    [|discriminate].
  rewrite (IH fuel' _ _ _ _ E) by lia. exact H.
Qed.

Lemma scan_word_more_fuel fuel doc p st :
  (enough doc <= fuel)%nat ->
  scan_word fuel doc p st = scan_word (enough doc) doc p st.
Proof.
  intros Hfuel.
  destruct (scan_left_spec (enough doc) doc p st
              (enough_left _ _ _ (Nat.le_refl _))) as (s & tl & Hs & _).
  destruct (scan_right_spec (enough doc) doc p st
              (enough_right _ _ _ (Nat.le_refl _))) as (e & tr & He & _).
  unfold scan_word, mbind, M_bind, bind.
  rewrite (scan_left_more_fuel _ fuel _ _ _ _ Hs Hfuel), Hs.
  rewrite (scan_right_more_fuel _ fuel _ _ _ _ He Hfuel), He.
  reflexivity.
Qed.

Lemma mouseMoveEvent_more_fuel fuel doc p st :
  (enough doc <= fuel)%nat ->
  mouseMoveEvent fuel doc p st = mouseMoveEvent (enough doc) doc p st.
Proof.
  intros Hfuel. unfold mouseMoveEvent, mbind, M_bind, bind, get, when.
  destruct (rescans st p); [|reflexivity].
  destruct (p >=? 0); [|reflexivity].
  cbn. unfold mbind, M_bind, bind, emit, put. cbn.
  rewrite (scan_word_more_fuel fuel) by assumption. reflexivity.
Qed.

Lemma rescan_span_ok doc p ws we reads :
  0 <= p -> word_bounds doc p ws we reads ->
  span_ok (rescan_span ws we (Regex.search url_regex (textRange doc ws we))).
Proof.
  intros Hp Hw. right. unfold rescan_span.
  pose proof (word_bounds_range _ _ _ _ _ Hp Hw).
  destruct (Regex.search url_regex (textRange doc ws we))
    as [[cs ce]|] eqn:Hm; cbn.
  - pose proof (rescan_span_match _ _ _ _ _ _ _ Hp Hw Hm). lia.
  - lia.
Qed.

(** X1: the two unbounded loops of the handler always come to an end: on
    every document, at every position and from every stored span the
    handler returns, with the same result for every amount of fuel that
    covers the document; its last call, and the only one of its kind, is the
    mouse handler of the base class. *)
Theorem X1_mouse_handler_returns fuel doc p st :
  (enough doc <= fuel)%nat ->
  exists st' t,
    mouseMoveEvent fuel doc p st = Some (tt, st', t ++ [BaseMouseMoveEvent]) /\
    mouseMoveEvent (enough doc) doc p st = mouseMoveEvent fuel doc p st /\
    Forall (fun c => c <> BaseMouseMoveEvent) t.
Proof.
  intros Hfuel. rewrite <- (mouseMoveEvent_more_fuel fuel) by assumption.
  destruct (rescans st p) eqn:E.
  - destruct (Z_lt_dec p 0) as [Hn|Hp].
    + rewrite mouseMoveEvent_off_text by assumption.
      exists no_span,
        [IndicatorClearRange (m_indicatorStart st) (m_indicatorStop st)].
      split; [reflexivity|]. split; [reflexivity|].
      repeat constructor. discriminate.
    + assert (Hp' : 0 <= p) by lia.
      destruct (mouseMoveEvent_rescan fuel doc p st E Hp' Hfuel)
        as (ws & we & reads & Hw & Heq).
      cbn zeta in Heq. rewrite Heq.
      destruct (word_bounds_range _ _ _ _ _ Hp' Hw) as (_ & _ & Hr & _).
      eexists _, (_ :: _). split; [reflexivity|]. split; [reflexivity|].
      constructor; [discriminate|]. unfold rescan_calls.
      apply Forall_app. split.
      * eapply Forall_impl; [exact Hr|]. intros c (pos & -> & _). discriminate.
      * destruct (Regex.search url_regex (textRange doc ws we)) as [[cs ce]|];
          repeat constructor; discriminate.
  - rewrite mouseMoveEvent_skip by assumption.
    exists st, []. split; [reflexivity|]. split; [reflexivity|]. constructor.
Qed.

Lemma X1_mouse_handler_witness :
  exists st' t,
    mouseMoveEvent 40 (bytes "see https://example.com/path here") 6 no_span
      = Some (tt, st', t ++ [BaseMouseMoveEvent]) /\
    mouseMoveEvent (enough (bytes "see https://example.com/path here"))
      (bytes "see https://example.com/path here") 6 no_span
      = mouseMoveEvent 40 (bytes "see https://example.com/path here") 6
          no_span /\
    Forall (fun c => c <> BaseMouseMoveEvent) t.
Proof.
  apply (X1_mouse_handler_returns 40
           (bytes "see https://example.com/path here") 6 no_span).
  unfold enough. simpl. lia.
Defined.

(** X2: the stored pair is the sentinel (-1, -1) or two offsets that are
    not negative after every event that finds it so, and after every event
    that passes the test of the handler, whatever was stored before. *)
Theorem X2_stored_span_stays_ok fuel doc p st :
  (enough doc <= fuel)%nat ->
  span_ok st \/ rescans st p = true ->
  exists st',
    state_after (mouseMoveEvent fuel doc p st) = Some st' /\ span_ok st'.
Proof.
  intros Hfuel Hst.
  destruct (mouseMoveEvent_returns fuel doc p st Hfuel) as (st' & t & Hrun).
  exists st'. rewrite Hrun. split; [reflexivity|].
  destruct Hst as [Hok|Ht].
  - eapply span_ok_kept; eassumption.
  - destruct (Z_lt_dec p 0) as [Hn|Hp].
    + rewrite mouseMoveEvent_off_text in Hrun by assumption.
      injection Hrun as <- _. left. reflexivity.
    + assert (Hp' : 0 <= p) by lia.
      destruct (mouseMoveEvent_rescan fuel doc p st Ht Hp' Hfuel)
        as (ws & we & reads & Hw & Heq).
      cbn zeta in Heq. rewrite Heq in Hrun. injection Hrun as <- _.
      apply (rescan_span_ok doc p ws we reads); assumption.
Qed.

Lemma X2_stored_span_witness :
  exists st',
    state_after
      (mouseMoveEvent 40 (bytes "see https://example.com/path here") 3
         {| m_indicatorStart := 4; m_indicatorStop := 28 |}) = Some st' /\
    span_ok st'.
Proof.
  apply (X2_stored_span_stays_ok 40
           (bytes "see https://example.com/path here") 3
           {| m_indicatorStart := 4; m_indicatorStop := 28 |}).
  - unfold enough. simpl. lia.
  - left. right. simpl. lia.
Defined.

End HandlerFacts.

Section HoverFacts.

Import Sci TextEditor Spec Urls.

(** X3: the handler leaves everything as it is, and only hands the event to
    the base class, exactly when the position lies between the stored stop
    and the stored start, both included: never when a span that is not
    empty is stored. *)
Theorem X3_handler_skips_iff fuel doc p st :
  (enough doc <= fuel)%nat ->
  (mouseMoveEvent fuel doc p st = Some (tt, st, [BaseMouseMoveEvent]) <->
   m_indicatorStop st <= p <= m_indicatorStart st) /\
  (m_indicatorStart st < m_indicatorStop st ->
   exists t,
     calls_of (mouseMoveEvent fuel doc p st) =
       IndicatorClearRange (m_indicatorStart st) (m_indicatorStop st) :: t).
Proof.
  intros Hfuel.
  assert (Hpass : rescans st p = true ->
            exists st' t, mouseMoveEvent fuel doc p st =
              Some (tt, st',
                    IndicatorClearRange (m_indicatorStart st)
                      (m_indicatorStop st) :: t)).
  { intros E. destruct (Z_lt_dec p 0) as [Hn|Hp].
    - rewrite mouseMoveEvent_off_text by assumption. eauto.
    - destruct (mouseMoveEvent_rescan fuel doc p st E ltac:(lia) Hfuel)
        as (ws & we & reads & _ & ->). eauto. }
  split.
  - split.
    + intros H. apply rescans_false_iff.
      destruct (rescans st p) eqn:E; [|reflexivity].
      destruct (Hpass eq_refl) as (st' & t & Heq).
      rewrite Heq in H. discriminate.
    + intros H. apply mouseMoveEvent_skip, rescans_false_iff. exact H.
  - intros Hspan.
    destruct (Hpass (rescans_proper_span st p Hspan)) as (st' & t & ->).
    exists t. reflexivity.
Qed.

Lemma X3_handler_skips_witness :
  (mouseMoveEvent 4 (bytes "  ") 1
     {| m_indicatorStart := 1; m_indicatorStop := 0 |}
     = Some (tt, {| m_indicatorStart := 1; m_indicatorStop := 0 |},
             [BaseMouseMoveEvent]) <->
   0 <= 1 <= 1) /\
  (1 < 0 ->
   exists t,
     calls_of (mouseMoveEvent 4 (bytes "  ") 1
                 {| m_indicatorStart := 1; m_indicatorStop := 0 |}) =
       IndicatorClearRange 1 0 :: t).
Proof.
  apply (X3_handler_skips_iff 4 (bytes "  ") 1
           {| m_indicatorStart := 1; m_indicatorStop := 0 |}).
  unfold enough. simpl. lia.
Defined.

(** X4: when the test of the handler passes at a character that is valid
    in a URL, the range the handler asks the text of is the longest run of
    such characters around the position: it lies within the document, holds
    the position, all of its characters are valid in a URL, and the
    characters before and after it are not. *)
Theorem X4_word_is_longest_run fuel doc p st :
  (enough doc <= fuel)%nat -> rescans st p = true ->
  TextFactory.isCharUrlValid (charAt doc p) = true ->
  exists ws we,
    In (TextRange ws we) (calls_of (mouseMoveEvent fuel doc p st)) /\
    0 <= ws <= p /\ p < we <= length doc /\
    (forall q, ws <= q < we ->
       TextFactory.isCharUrlValid (charAt doc q) = true) /\
    TextFactory.isCharUrlValid (charAt doc (ws - 1)) = false /\
    TextFactory.isCharUrlValid (charAt doc we) = false.
Proof.
  intros Hfuel Ht Hv. pose proof (valid_char_inside _ _ Hv) as Hin.
  assert (Hp : 0 <= p) by lia.
  destruct (mouseMoveEvent_rescan fuel doc p st Ht Hp Hfuel)
    as (ws & we & reads & Hw & Heq).
  cbn zeta in Heq. rewrite Heq. exists ws, we. cbn [calls_of]. split.
  { right. apply in_or_app. left. unfold rescan_calls.
    apply in_or_app. right. left. reflexivity. }
  destruct (word_bounds_range _ _ _ _ _ Hp Hw) as (H1 & H2 & _ & Hsh).
  assert (Hrun := fun q => word_run doc p ws we reads q Hw).
  destruct Hw as (tl & tr & _ & [_ L2 _ _ _] & [_ R2 _ _ _]).
  destruct Hsh as [[-> ->]|Hsh].
  - replace (p + 1 - 1) with p in L2 by lia. congruence.
  - repeat split; try lia; assumption.
Qed.

Lemma X4_word_witness :
  exists ws we,
    In (TextRange ws we)
       (calls_of (mouseMoveEvent 40
                    (bytes "see https://example.com/path here") 6 no_span)) /\
    0 <= ws <= 6 /\
    6 < we <= length (bytes "see https://example.com/path here") /\
    (forall q, ws <= q < we ->
       TextFactory.isCharUrlValid
         (charAt (bytes "see https://example.com/path here") q) = true) /\
    TextFactory.isCharUrlValid
      (charAt (bytes "see https://example.com/path here") (ws - 1)) = false /\
    TextFactory.isCharUrlValid
      (charAt (bytes "see https://example.com/path here") we) = false.
Proof.
  apply (X4_word_is_longest_run 40
           (bytes "see https://example.com/path here") 6 no_span).
  - unfold enough. simpl. lia.
  - reflexivity.
  - reflexivity.
Defined.

(** X5: whenever the handler fills the indicator, the filled range is the
    stored span, it starts within the word and ends where the word ends, it
    is at least seven bytes long (a scheme and one more character) and it
    lies within the document. *)
Theorem X5_highlight_runs_to_word_end fuel doc p st a l :
  (enough doc <= fuel)%nat -> rescans st p = true -> 0 <= p ->
  In (IndicatorFillRange a l) (calls_of (mouseMoveEvent fuel doc p st)) ->
  exists ws we,
    In (TextRange ws we) (calls_of (mouseMoveEvent fuel doc p st)) /\
    state_after (mouseMoveEvent fuel doc p st) =
      Some {| m_indicatorStart := a; m_indicatorStop := a + l |} /\
    0 <= ws <= a /\ 7 <= l /\ a + l = we /\ we <= length doc.
Proof.
  intros Hfuel Ht Hp Hfill.
  destruct (mouseMoveEvent_rescan fuel doc p st Ht Hp Hfuel)
    as (ws & we & reads & Hw & Heq).
  cbn zeta in Heq. rewrite Heq in *. cbn [calls_of state_after] in *.
  destruct (word_bounds_range _ _ _ _ _ Hp Hw) as (H1 & _ & Hr & Hsh).
  destruct (fill_in_rescan_calls _ _ _ _ _ _ _ _ _ _ _ Hr Hfill)
    as (cs & ce & Hm & -> & ->).
  rewrite Hm. exists ws, we. split.
  { right. apply in_or_app. left. unfold rescan_calls.
    apply in_or_app. right. left. reflexivity. }
  pose proof (rescan_span_match _ _ _ _ _ _ _ Hp Hw Hm) as Hb.
  destruct (search_url_word _ _ _ (word_text_in_class _ _ _ _ _ Hp Hw) Hm)
    as (Hce & pre & scheme & rest & Htext & Hcs & Hs & Hrest).
  assert (Hlen : length (textRange doc ws we) = we - ws).
  { destruct Hsh as [[-> ->]|Hsh].
    - rewrite textRange_backwards in Hm by lia. discriminate.
    - apply textRange_length; lia. }
  pose proof (scheme_length _ Hs) as Hsl.
  assert (1 <= length rest).
  { destruct rest; [congruence|]. unfold length. cbn [List.length]. lia. }
  assert (length (textRange doc ws we)
          = length pre + length scheme + length rest).
  { rewrite Htext. unfold length. rewrite !length_app. lia. }
  unfold rescan_span. split; [f_equal; f_equal; lia|]. lia.
Qed.

Lemma X5_highlight_witness :
  exists ws we,
    In (TextRange ws we)
       (calls_of (mouseMoveEvent 40
                    (bytes "see https://example.com/path here") 6 no_span)) /\
    state_after (mouseMoveEvent 40
                   (bytes "see https://example.com/path here") 6 no_span) =
      Some {| m_indicatorStart := 4; m_indicatorStop := 4 + 24 |} /\
    0 <= ws <= 4 /\ 7 <= 24 /\ 4 + 24 = we /\
    we <= length (bytes "see https://example.com/path here").
Proof.
  apply (X5_highlight_runs_to_word_end 40
           (bytes "see https://example.com/path here") 6 no_span 4 24).
  - unfold enough. simpl. lia.
  - reflexivity.
  - lia.
  - vm_compute. repeat (first [left; reflexivity | right]).
Defined.

End HoverFacts.

Section HoverComposition.

Import Sci TextEditor Spec Urls.

(** X6: on an unchanged document a second mouse move at the same position
    leaves the stored span as the first one left it, whether the second
    event passes the test of the handler or not. *)
Theorem X6_same_move_twice fuel doc p st st1 :
  (enough doc <= fuel)%nat ->
  state_after (mouseMoveEvent fuel doc p st) = Some st1 ->
  state_after (mouseMoveEvent fuel doc p st1) = Some st1.
Proof.
  intros Hfuel H1.
  destruct (rescans st1 p) eqn:E2;
    [|rewrite mouseMoveEvent_skip by assumption; reflexivity].
  destruct (rescans st p) eqn:E1.
  - destruct (Z_lt_dec p 0) as [Hn|Hp].
    + rewrite mouseMoveEvent_off_text by assumption. cbn [state_after].
      rewrite mouseMoveEvent_off_text in H1 by assumption. exact H1.
    + assert (Hp' : 0 <= p) by lia.
      destruct (mouseMoveEvent_rescan fuel doc p st E1 Hp' Hfuel)
        as (ws & we & reads & Hw & Heq).
      destruct (mouseMoveEvent_rescan fuel doc p st1 E2 Hp' Hfuel)
        as (ws' & we' & reads' & Hw' & Heq').
      cbn zeta in Heq, Heq'. rewrite Heq in H1. rewrite Heq'.
      cbn [state_after] in *. rewrite <- H1.
      destruct Hw as (tl & tr & _ & Hl & Hr).
      destruct Hw' as (tl' & tr' & _ & Hl' & Hr').
      pose proof (left_stop_unique _ _ _ _ _ _ Hl Hl').
      pose proof (right_stop_unique _ _ _ _ _ _ Hr Hr').
      assert (ws' = ws) as -> by lia. subst we'. reflexivity.
  - rewrite mouseMoveEvent_skip in H1 by assumption. cbn in H1.
    injection H1 as <-. congruence.
Qed.

Lemma X6_same_move_witness :
  state_after
    (mouseMoveEvent 40 (bytes "see https://example.com/path here") 6
       {| m_indicatorStart := 4; m_indicatorStop := 28 |}) =
    Some {| m_indicatorStart := 4; m_indicatorStop := 28 |}.
Proof.
  apply (X6_same_move_twice 40
           (bytes "see https://example.com/path here") 6 no_span
           {| m_indicatorStart := 4; m_indicatorStop := 28 |}).
  - unfold enough. simpl. lia.
  - reflexivity.
Defined.

(** X7: after a mouse move that filled the indicator, a click on it with
    Ctrl alone asks the browser, once, for the filled text of the document;
    that text begins with http://, https://, ftp:// or mailto: and goes on
    with at least one character, all of the class of the pattern. *)
Theorem X7_click_after_hover_opens_url fuel doc p st st' t a l :
  (enough doc <= fuel)%nat -> rescans st p = true -> 0 <= p ->
  mouseMoveEvent fuel doc p st = Some (tt, st', t) ->
  In (IndicatorFillRange a l) t ->
  exists scheme rest,
    scheme ∈ schemes /\ rest <> [] /\
    Forall (fun c => in_class c = true) rest /\
    textRange doc a (a + l) = scheme ++ rest /\
    notify doc ctrl_click st' =
      Some (tt, st',
            [TextRange a (a + l); OpenUrlInExternalBrowser (scheme ++ rest)]).
Proof.
  intros Hfuel Ht Hp Hrun Hfill.
  destruct (mouseMoveEvent_rescan fuel doc p st Ht Hp Hfuel)
    as (ws & we & reads & Hw & Heq).
  cbn zeta in Heq. rewrite Heq in Hrun. injection Hrun as <- <-.
  destruct (word_bounds_range _ _ _ _ _ Hp Hw) as (H1 & _ & Hr & Hsh).
  destruct (fill_in_rescan_calls _ _ _ _ _ _ _ _ _ _ _ Hr Hfill)
    as (cs & ce & Hm & -> & ->).
  rewrite Hm.
  pose proof (rescan_span_match _ _ _ _ _ _ _ Hp Hw Hm) as Hb.
  pose proof (word_text_in_class _ _ _ _ _ Hp Hw) as Hall.
  destruct (search_url_word _ _ _ Hall Hm)
    as (Hce & pre & scheme & rest & Htext & Hcs & Hs & Hrest).
  assert (Hlen : length (textRange doc ws we) = we - ws).
  { destruct Hsh as [[-> ->]|Hsh].
    - rewrite textRange_backwards in Hm by lia. discriminate.
    - apply textRange_length; lia. }
  assert (Hurl : textRange doc (ws + cs) (ws + cs + (ce - cs)) = scheme ++ rest).
  { replace (ws + cs + (ce - cs)) with we by lia.
    rewrite textRange_drop by lia. rewrite Htext, Hcs.
    unfold length. rewrite Nat2Z.id. rewrite drop_app_length. reflexivity. }
  exists scheme, rest. split; [exact Hs|]. split; [exact Hrest|]. split.
  { rewrite Htext in Hall. apply Forall_app in Hall. destruct Hall as [_ Hall].
    apply Forall_app in Hall. destruct Hall as [_ Hall]. exact Hall. }
  split; [exact Hurl|].
  unfold notify, ctrl_click, mbind, M_bind, bind, get, when, rescan_span.
  cbn. replace (ws + ce) with (ws + cs + (ce - cs)) by lia.
  rewrite Hurl. reflexivity.
Qed.

Lemma X7_click_after_hover_witness :
  exists scheme rest,
    scheme ∈ schemes /\ rest <> [] /\
    Forall (fun c => in_class c = true) rest /\
    textRange (bytes "see https://example.com/path here") 4 (4 + 24)
      = scheme ++ rest /\
    notify (bytes "see https://example.com/path here") ctrl_click
      {| m_indicatorStart := 4; m_indicatorStop := 28 |} =
      Some (tt, {| m_indicatorStart := 4; m_indicatorStop := 28 |},
            [TextRange 4 (4 + 24);
             OpenUrlInExternalBrowser (scheme ++ rest)]).
Proof.
  eapply (X7_click_after_hover_opens_url 40
            (bytes "see https://example.com/path here") 6 no_span
            {| m_indicatorStart := 4; m_indicatorStop := 28 |} _ 4 24).
  - unfold enough. simpl. lia.
  - reflexivity.
  - lia.
  - vm_compute. reflexivity.
  - repeat (first [left; reflexivity | right]).
Defined.

End HoverComposition.

(** * Saving and closing *)

Section SavingFacts.

Import Saving.

Local Open Scope string_scope.

Lemma isEmpty_true s : isEmpty s = true <-> s = "".
Proof. destruct s; cbn; split; congruence. Qed.

(** What [saveToFile] leaves behind, by the answer of [QFile::open]. *)
Lemma saveToFile_facts w file_path encoding ed :
  let r := saveToFile w file_path encoding ed in
  ok_of r = open_for_writing w file_path /\
  text (widget_of r) = text ed /\
  m_encoding (widget_of r) =
    (if isEmpty encoding then m_encoding ed else encoding) /\
  (ok_of r = true ->
     modify (widget_of r) = false /\
     m_filePath (widget_of r) = toNativeSeparators w file_path /\
     effects_of r =
       [WriteFile file_path (m_encoding (widget_of r)) (text ed);
        SetSavePoint; SavedToFile (toNativeSeparators w file_path)]) /\
  (ok_of r = false ->
     modify (widget_of r) = modify ed /\
     m_filePath (widget_of r) = m_filePath ed /\
     effects_of r = []).
Proof.
  cbn zeta. unfold saveToFile.
  destruct (open_for_writing w file_path); destruct (isEmpty encoding);
    cbn; repeat split; intros; congruence.
Qed.

Lemma saveToFile_default w file_path encoding ed :
  isEmpty encoding = true ->
  saveToFile w file_path encoding ed = saveToFile w file_path "" ed.
Proof. intros H. apply isEmpty_true in H. subst. reflexivity. Qed.

Lemma saveAs_unfold w encoding ed :
  saveAs w encoding ed =
    if isEmpty (getSaveFileName w)
    then (false, ed, [AskSaveFileName (m_filePath ed)])
    else
      let r := saveToFile w (getSaveFileName w) encoding ed in
      (ok_of r, widget_of r,
       AskSaveFileName (m_filePath ed)
         :: SetLoadSaveDefaultDirectory (getSaveFileName w) :: effects_of r).
Proof.
  unfold saveAs. destruct (isEmpty (getSaveFileName w)); [reflexivity|]. cbn.
  destruct (isEmpty encoding) eqn:E; [|reflexivity].
  rewrite (saveToFile_default _ _ encoding) by assumption. reflexivity.
Qed.

End SavingFacts.

Section SavingOutcome.

Import Saving.

Local Open Scope string_scope.

Lemma saveToFile_outcome w file_path encoding ed :
  save_outcome ed (saveToFile w file_path encoding ed).
Proof.
  unfold save_outcome, saveToFile, ok_of, widget_of, effects_of.
  destruct (open_for_writing w file_path); destruct (isEmpty encoding); cbn;
    repeat split; intros; try congruence;
    try (eexists; right; right; left; reflexivity);
    match goal with H : exists _, False |- _ => destruct H as [? []] end.
Qed.

Lemma saveAs_outcome w encoding ed : save_outcome ed (saveAs w encoding ed).
Proof.
  rewrite saveAs_unfold.
  destruct (isEmpty (getSaveFileName w)).
  - unfold save_outcome, ok_of, widget_of, effects_of. cbn.
    split; [reflexivity|]. split; [reflexivity|]. split; [split|split].
    + intros [path [H|[]]]. discriminate.
    + discriminate.
    + discriminate.
    + auto.
  - pose proof (saveToFile_outcome w (getSaveFileName w) encoding ed)
      as (H1 & H2 & H3 & H4 & H5).
    cbn zeta. unfold save_outcome, ok_of, widget_of, effects_of in *. cbn.
    split; [exact H1|]. split; [exact H2|]. split; [|split; assumption].
    rewrite <- H3. split.
    + intros [path [H|[H|H]]]; try discriminate. eauto.
    + intros [path H]. exists path. right. right. exact H.
Qed.

Lemma save_outcome_save w ed : save_outcome ed (save w ed).
Proof.
  unfold save. destruct (isEmpty (m_filePath ed)).
  - apply saveAs_outcome.
  - apply saveToFile_outcome.
Qed.

End SavingOutcome.

Section SavingClaims.

Import Saving.

Local Open Scope string_scope.

(** X8: [closeEditor] lets the editor close exactly when the document has
    no unsaved change, or the user chose Discard, or the user chose Save and
    the document was saved; unless the user chose Discard, a document that
    may close has no unsaved change left. A file is written only for a
    changed document and the answer Save, the text of the document is never
    touched, and [closeEvent] hands the event on to the base class when the
    editor may close and ignores it otherwise. *)
Theorem X8_close_decision w ed :
  let r := closeEditor w ed in
  (ok_of r = true <->
     modify ed = false \/ question w = Discard \/
     (question w = Save /\ exists path, In (SavedToFile path) (effects_of r)))
  /\ (ok_of r = true -> question w <> Discard ->
      modify (widget_of r) = false)
  /\ text (widget_of r) = text ed
  /\ (existsb is_write (effects_of r) = true ->
      modify ed = true /\ question w = Save /\ ok_of r = true)
  /\ closeEvent w ed =
       (widget_of r,
        (effects_of r
           ++ [if ok_of r then BaseCloseEvent else EventIgnore])%list).
Proof.
  cbn zeta.
  assert (Hev : closeEvent w ed =
            (widget_of (closeEditor w ed),
             (effects_of (closeEditor w ed)
                ++ [if ok_of (closeEditor w ed)
                    then BaseCloseEvent else EventIgnore])%list)).
  { unfold closeEvent. destruct (ok_of (closeEditor w ed)); reflexivity. }
  rewrite Hev. clear Hev. unfold closeEditor.
  destruct (modify ed) eqn:Hmod.
  - destruct (question w) eqn:Hq;
      unfold ok_of, widget_of, effects_of; cbn;
      try (repeat split; intros; auto; try congruence;
           repeat match goal with
                  | H : _ \/ _ |- _ => destruct H
                  | H : _ /\ _ |- _ => destruct H
                  end; congruence).
    pose proof (save_outcome_save w ed) as (H1 & H2 & H3 & H4 & H5).
    unfold ok_of, widget_of, effects_of in *.
    split; [|split; [|split; [|split]]].
    + rewrite <- H3. split.
      * intros [path H]. right. right. split; [reflexivity|].
        exists path. right. right. exact H.
      * intros [H|[H|[_ [path [H|[H|H]]]]]]; try discriminate. eauto.
    + intros Hok _. auto.
    + exact H1.
    + intros Hw. rewrite H2 in Hw. auto.
    + reflexivity.
  - unfold ok_of, widget_of, effects_of. cbn.
    repeat split; intros; auto; discriminate.
Qed.

(** X9: when no file can be opened for writing, [save] fails, writes
    nothing and leaves the widget exactly as it was; [closeEditor] writes
    nothing and leaves the widget as it was, reports failure for a changed
    document the user wants saved, and [closeEvent] then ignores the event;
    [saveAs] fails and writes nothing as well and keeps the file path and
    the unsaved changes, but, once a file name is picked, it has already
    stored the encoding it was given. None of the three sets the save point
    or sends the signal. *)
Theorem X9_nothing_can_be_written w ed encoding :
  (forall path, open_for_writing w path = false) ->
  save w ed = (false, ed, effects_of (save w ed)) /\
  ok_of (save w ed) = false /\
  existsb is_write (effects_of (save w ed)) = false /\
  existsb is_saved (effects_of (save w ed)) = false /\
  existsb is_write (effects_of (saveAs w encoding ed)) = false /\
  existsb is_saved (effects_of (saveAs w encoding ed)) = false /\
  existsb is_saved (effects_of (closeEditor w ed)) = false /\
  existsb is_write (effects_of (closeEditor w ed)) = false /\
  widget_of (closeEditor w ed) = ed /\
  (modify ed = true -> question w = Save ->
     ok_of (closeEditor w ed) = false /\
     last (closeEvent w ed).2 = Some EventIgnore) /\
  ok_of (saveAs w encoding ed) = false /\
  m_filePath (widget_of (saveAs w encoding ed)) = m_filePath ed /\
  modify (widget_of (saveAs w encoding ed)) = modify ed /\
  (isEmpty (getSaveFileName w) = false -> isEmpty encoding = false ->
     m_encoding (widget_of (saveAs w encoding ed)) = encoding).
Proof.
  intros Hno.
  assert (Hsave : save w ed = (false, ed, effects_of (save w ed)) /\
                  existsb is_write (effects_of (save w ed)) = false /\
                  existsb is_saved (effects_of (save w ed)) = false).
  { unfold save, saveAs, saveToFile, ok_of, widget_of, effects_of.
    destruct (isEmpty (m_filePath ed)); cbn.
    - destruct (isEmpty (getSaveFileName w)); cbn; [auto|].
      rewrite Hno. cbn. auto.
    - rewrite Hno. cbn. auto. }
  destruct Hsave as (Hsave & Hnw & Hns).
  split; [exact Hsave|]. split; [rewrite Hsave; reflexivity|].
  split; [exact Hnw|]. split; [exact Hns|].
  assert (Has : existsb is_write (effects_of (saveAs w encoding ed)) = false /\
                existsb is_saved (effects_of (saveAs w encoding ed)) = false).
  { rewrite saveAs_unfold.
    destruct (isEmpty (getSaveFileName w)); cbn; [auto|].
    unfold saveToFile, effects_of. rewrite Hno. cbn. auto. }
  destruct Has as [Has1 Has2].
  split; [exact Has1|]. split; [exact Has2|].
  assert (Hclose : existsb is_saved (effects_of (closeEditor w ed)) = false /\
                   existsb is_write (effects_of (closeEditor w ed)) = false /\
                   widget_of (closeEditor w ed) = ed /\
                   (modify ed = true -> question w = Save ->
                    ok_of (closeEditor w ed) = false)).
  { unfold closeEditor.
    destruct (modify ed); [|cbn; repeat split; intros; discriminate].
    destruct (question w); try (cbn; repeat split; intros; discriminate).
    rewrite Hsave. unfold ok_of, widget_of, effects_of in *. cbn.
    split; [exact Hns|]. split; [exact Hnw|]. auto. }
  destruct Hclose as (Hc0 & Hc1 & Hc2 & Hc3).
  split; [exact Hc0|]. split; [exact Hc1|]. split; [exact Hc2|]. split.
  { intros Hm Hq. split; [auto|]. unfold closeEvent. rewrite (Hc3 Hm Hq).
    cbn. apply last_snoc. }
  rewrite saveAs_unfold.
  destruct (isEmpty (getSaveFileName w)); cbn.
  - repeat split; intros; discriminate.
  - unfold saveToFile, ok_of, widget_of. rewrite Hno. cbn.
    destruct (isEmpty encoding); cbn; repeat split; intros; congruence.
Qed.

Lemma X9_nothing_can_be_written_witness :
  let w := {| question := Save; getSaveFileName := "/ro/a.txt";
              open_for_writing := fun _ => false;
              toNativeSeparators := fun s => s |} in
  let ed := {| m_filePath := ""; m_encoding := "UTF-8"; text := "x";
               modify := true |} in
  save w ed = (false, ed, effects_of (save w ed)) /\
  ok_of (save w ed) = false /\
  existsb is_write (effects_of (save w ed)) = false /\
  existsb is_saved (effects_of (save w ed)) = false /\
  existsb is_write (effects_of (saveAs w "UTF-16" ed)) = false /\
  existsb is_saved (effects_of (saveAs w "UTF-16" ed)) = false /\
  existsb is_saved (effects_of (closeEditor w ed)) = false /\
  existsb is_write (effects_of (closeEditor w ed)) = false /\
  widget_of (closeEditor w ed) = ed /\
  (modify ed = true -> question w = Save ->
     ok_of (closeEditor w ed) = false /\
     last (closeEvent w ed).2 = Some EventIgnore) /\
  ok_of (saveAs w "UTF-16" ed) = false /\
  m_filePath (widget_of (saveAs w "UTF-16" ed)) = m_filePath ed /\
  modify (widget_of (saveAs w "UTF-16" ed)) = modify ed /\
  (isEmpty (getSaveFileName w) = false -> isEmpty "UTF-16" = false ->
     m_encoding (widget_of (saveAs w "UTF-16" ed)) = "UTF-16").
Proof.
  apply (X9_nothing_can_be_written
           {| question := Save; getSaveFileName := "/ro/a.txt";
              open_for_writing := fun _ => false;
              toNativeSeparators := fun s => s |}
           {| m_filePath := ""; m_encoding := "UTF-8"; text := "x";
              modify := true |} "UTF-16").
  intros path. reflexivity.
Defined.

End SavingClaims.

Section SavingComposition.

Import Saving.

(** What [saveAs] does, by the answers of the dialog and of the file
    system. *)
Lemma saveAs_facts w encoding ed :
  let r := saveAs w encoding ed in
  let name := getSaveFileName w in
  (ok_of r = true <->
     isEmpty name = false /\ open_for_writing w name = true) /\
  (ok_of r = true ->
     m_filePath (widget_of r) = toNativeSeparators w name /\
     modify (widget_of r) = false /\
     m_encoding (widget_of r) =
       (if isEmpty encoding then m_encoding ed else encoding) /\
     effects_of r =
       [AskSaveFileName (m_filePath ed); SetLoadSaveDefaultDirectory name;
        WriteFile name (m_encoding (widget_of r)) (text ed);
        SetSavePoint; SavedToFile (toNativeSeparators w name)]) /\
  (isEmpty name = true ->
     r = (false, ed, [AskSaveFileName (m_filePath ed)])).
Proof.
  cbn zeta. rewrite saveAs_unfold.
  destruct (isEmpty (getSaveFileName w)) eqn:Hname.
  - unfold ok_of. cbn. repeat split; intros; try discriminate.
    destruct H; discriminate.
  - pose proof (saveToFile_facts w (getSaveFileName w) encoding ed)
      as (H1 & H2 & H3 & H4 & _).
    cbn zeta in *. unfold ok_of, widget_of, effects_of in *. cbn.
    split; [|split; [|intros; discriminate]].
    + rewrite H1. split; [auto | intros [_ H]; exact H].
    + intros Hok. destruct (H4 Hok) as (Hm & Hp & He).
      rewrite He. repeat split; assumption.
Qed.

(** X10: [saveAs] succeeds exactly when the user picks a file name and that
    file can be opened; then the text of the document is written to the
    picked file in the stored encoding, which is the given one unless that
    is empty, the file path becomes the picked name with native separators
    and no unsaved change is left. When the dialog is dismissed nothing but
    the dialog happens. *)
Theorem X10_saveAs_result w encoding ed :
  let r := saveAs w encoding ed in
  let name := getSaveFileName w in
  (ok_of r = true <->
     isEmpty name = false /\ open_for_writing w name = true) /\
  (ok_of r = true ->
     m_filePath (widget_of r) = toNativeSeparators w name /\
     modify (widget_of r) = false /\
     m_encoding (widget_of r) =
       (if isEmpty encoding then m_encoding ed else encoding) /\
     effects_of r =
       [AskSaveFileName (m_filePath ed); SetLoadSaveDefaultDirectory name;
        WriteFile name (m_encoding (widget_of r)) (text ed);
        SetSavePoint; SavedToFile (toNativeSeparators w name)]) /\
  (isEmpty name = true ->
     r = (false, ed, [AskSaveFileName (m_filePath ed)])).
Proof. exact (saveAs_facts w encoding ed). Qed.

(** X11: once [save] has succeeded, [closeEditor] lets the editor close
    without asking anything and without writing anything, whatever the user
    and the file system would answer, and [closeEvent] hands the event to
    the base class. *)
Theorem X11_close_after_save w w' ed :
  ok_of (save w ed) = true ->
  closeEditor w' (widget_of (save w ed)) = (true, widget_of (save w ed), []) /\
  closeEvent w' (widget_of (save w ed)) =
    (widget_of (save w ed), [BaseCloseEvent]).
Proof.
  intros Hok.
  pose proof (save_outcome_save w ed) as (_ & _ & _ & H4 & _).
  specialize (H4 Hok). unfold closeEvent, closeEditor. rewrite H4.
  split; reflexivity.
Qed.

Lemma X11_close_after_save_witness :
  let w := {| question := Save; getSaveFileName := "a.txt"%string;
              open_for_writing := fun _ => true;
              toNativeSeparators := fun s => s |} in
  let w' := {| question := Cancel; getSaveFileName := ""%string;
               open_for_writing := fun _ => false;
               toNativeSeparators := fun s => s |} in
  let ed := {| m_filePath := ""%string; m_encoding := "UTF-8"%string;
               text := "x"%string; modify := true |} in
  closeEditor w' (widget_of (save w ed)) = (true, widget_of (save w ed), []) /\
  closeEvent w' (widget_of (save w ed)) =
    (widget_of (save w ed), [BaseCloseEvent]).
Proof.
  apply (X11_close_after_save
           {| question := Save; getSaveFileName := "a.txt"%string;
              open_for_writing := fun _ => true;
              toNativeSeparators := fun s => s |}
           {| question := Cancel; getSaveFileName := ""%string;
              open_for_writing := fun _ => false;
              toNativeSeparators := fun s => s |}
           {| m_filePath := ""%string; m_encoding := "UTF-8"%string;
              text := "x"%string; modify := true |}).
  reflexivity.
Defined.

(** X12: after a [saveAs] that succeeded, [save] opens no dialog: it
    writes the text in the stored encoding to the stored file path, and
    succeeds exactly when that file can be opened; this needs the picked
    name to stay a name under [toNativeSeparators]. *)
Theorem X12_save_after_saveAs w w' encoding ed :
  ok_of (saveAs w encoding ed) = true ->
  isEmpty (toNativeSeparators w (getSaveFileName w)) = false ->
  let ed' := widget_of (saveAs w encoding ed) in
  let r := save w' ed' in
  existsb is_dialog (effects_of r) = false /\
  ok_of r = open_for_writing w' (m_filePath ed') /\
  m_encoding (widget_of r) = m_encoding ed' /\
  (ok_of r = true ->
   effects_of r =
     [WriteFile (m_filePath ed') (m_encoding ed') (text ed);
      SetSavePoint; SavedToFile (toNativeSeparators w' (m_filePath ed'))]).
Proof.
  intros Hok Hname. cbn zeta.
  pose proof (saveAs_facts w encoding ed) as (_ & H & _).
  cbn zeta in H. destruct (H Hok) as (Hp & _ & _ & _).
  pose proof (saveAs_outcome w encoding ed) as (Ht & _).
  set (ed' := widget_of (saveAs w encoding ed)) in *.
  unfold save. rewrite Hp, Hname. rewrite <- Hp.
  pose proof (saveToFile_facts w' (m_filePath ed') EmptyString ed')
    as (H1 & H2 & H3 & H4 & H5).
  cbn zeta in *. cbn [isEmpty] in H3.
  split; [|split; [exact H1|split; [exact H3|]]].
  - destruct (ok_of (saveToFile w' (m_filePath ed') EmptyString ed')) eqn:E.
    + destruct (H4 eq_refl) as (_ & _ & ->). reflexivity.
    + destruct (H5 eq_refl) as (_ & _ & ->). reflexivity.
  - intros Hok'. destruct (H4 Hok') as (_ & _ & ->).
    rewrite H3, Ht. reflexivity.
Qed.

Lemma X12_save_after_saveAs_witness :
  let w := {| question := Save; getSaveFileName := "a.txt"%string;
              open_for_writing := fun _ => true;
              toNativeSeparators := fun s => s |} in
  let ed := {| m_filePath := ""%string; m_encoding := "UTF-8"%string;
               text := "x"%string; modify := true |} in
  let ed' := widget_of (saveAs w "UTF-16"%string ed) in
  let r := save w ed' in
  existsb is_dialog (effects_of r) = false /\
  ok_of r = open_for_writing w (m_filePath ed') /\
  m_encoding (widget_of r) = m_encoding ed' /\
  (ok_of r = true ->
   effects_of r =
     [WriteFile (m_filePath ed') (m_encoding ed') (text ed);
      SetSavePoint; SavedToFile (toNativeSeparators w (m_filePath ed'))]).
Proof.
  apply (X12_save_after_saveAs
           {| question := Save; getSaveFileName := "a.txt"%string;
              open_for_writing := fun _ => true;
              toNativeSeparators := fun s => s |}
           {| question := Save; getSaveFileName := "a.txt"%string;
              open_for_writing := fun _ => true;
              toNativeSeparators := fun s => s |}
           "UTF-16"%string
           {| m_filePath := ""%string; m_encoding := "UTF-8"%string;
              text := "x"%string; modify := true |}).
  - reflexivity.
  - reflexivity.
Defined.

End SavingComposition.

(** * The wheel, the margin and the styles *)

Section WidgetFacts.

Import Widgets.

Lemma land_bit m k :
  0 <= k -> (Z.land m (2 ^ k) =? 0) = negb (Z.testbit m k).
Proof.
  intros Hk. destruct (Z.testbit m k) eqn:E; cbn.
  - apply Z.eqb_neq. intros H.
    assert (Hb : Z.testbit (Z.land m (2 ^ k)) k = false)
      by (rewrite H; apply Z.bits_0).
    rewrite Z.land_spec, E, Z.pow2_bits_true in Hb by assumption.
    discriminate.
  - apply Z.eqb_eq. apply Z.bits_inj'. intros n Hn.
    rewrite Z.land_spec, Z.bits_0, Z.pow2_bits_eqb by assumption.
    destruct (Z.eqb_spec k n) as [->|Hne].
    + rewrite E. reflexivity.
    + apply andb_false_r.
Qed.

(** X13: a wheel event that is not horizontal changes the font size
    whenever the Ctrl bit is among the keyboard modifiers, whichever other
    keys are held and whatever the scroll bar policies are, and the line
    spacing when the Shift bit is there without the Ctrl bit; a delta of
    zero counts as a step down. A horizontal wheel event never changes
    either setting. *)
Theorem X13_wheel_modifiers h v mods event :
  (orientation event <> Qt_Horizontal ->
   Z.testbit mods 26 = true ->
   wheelEvent h v mods event =
     if 0 <? delta event then IncreaseFontSize else DecreaseFontSize) /\
  (orientation event <> Qt_Horizontal ->
   Z.testbit mods 26 = false -> Z.testbit mods 25 = true ->
   wheelEvent h v mods event =
     if 0 <? delta event then IncreaseLineSpacing else DecreaseLineSpacing) /\
  (orientation event = Qt_Horizontal \/
   (Z.testbit mods 26 = false /\ Z.testbit mods 25 = false) ->
   wheelEvent h v mods event = WheelIgnore \/
   wheelEvent h v mods event = WheelScrollArea).
Proof.
  unfold wheelEvent.
  change Qt_ControlModifier with (2 ^ 26).
  change Qt_ShiftModifier with (2 ^ 25).
  rewrite !land_bit by lia. rewrite !negb_involutive.
  replace (delta event >? 0) with (0 <? delta event) by lia.
  split; [|split].
  - intros Ho Hc. replace (orientation event =? Qt_Horizontal) with false
      by (symmetry; apply Z.eqb_neq; exact Ho).
    rewrite Hc. reflexivity.
  - intros Ho Hc Hs. replace (orientation event =? Qt_Horizontal) with false
      by (symmetry; apply Z.eqb_neq; exact Ho).
    rewrite Hc, Hs. reflexivity.
  - intros [Ho|[Hc Hs]].
    + rewrite Ho. cbn. destruct (h =? Qt_ScrollBarAlwaysOff); auto.
    + rewrite Hc, Hs.
      destruct (orientation event =? Qt_Horizontal);
        [destruct (h =? Qt_ScrollBarAlwaysOff)
        |destruct (v =? Qt_ScrollBarAlwaysOff)]; auto.
Qed.

Lemma margin_visibility_at env m :
  updateLineNumberMarginVisibility env m (MARGIN_LINE_NUMBERS env) =
    if lineNumbersEnabled env
    then stringWidth env (mainFont env) (zoom env) (lineCount env)
         + MARGIN_PADDING_LINE_NUMBERS env
    else if m (MARGIN_LINE_NUMBERS env) <=? 0
         then m (MARGIN_LINE_NUMBERS env) else 0.
Proof.
  unfold updateLineNumberMarginVisibility, updateLineNumberMarginWidth,
    setMarginWidthN.
  destruct (lineNumbersEnabled env);
    destruct (m (MARGIN_LINE_NUMBERS env) <=? 0); cbn;
    rewrite ?Z.eqb_refl; reflexivity.
Qed.

Lemma margin_visibility_other env m k :
  k <> MARGIN_LINE_NUMBERS env ->
  updateLineNumberMarginVisibility env m k = m k.
Proof.
  intros Hk.
  unfold updateLineNumberMarginVisibility, updateLineNumberMarginWidth,
    setMarginWidthN.
  destruct (lineNumbersEnabled env);
    destruct (m (MARGIN_LINE_NUMBERS env) <=? 0); cbn;
    try reflexivity;
    replace (k =? MARGIN_LINE_NUMBERS env) with false by lia; reflexivity.
Qed.

(** X14: after [updateLineNumberMarginVisibility] the line number margin is
    not visible when line numbers are disabled, and has the width of the
    line count plus the padding when they are enabled; no other margin is
    touched, a second call changes nothing, and [onModified] leaves all
    margins alone when no line was added or removed. *)
Theorem X14_line_number_margin env m :
  let n := MARGIN_LINE_NUMBERS env in
  let m' := updateLineNumberMarginVisibility env m in
  (lineNumbersEnabled env = false -> isMarginVisible m' n = false) /\
  (lineNumbersEnabled env = true ->
   m' n = stringWidth env (mainFont env) (zoom env) (lineCount env)
          + MARGIN_PADDING_LINE_NUMBERS env) /\
  (forall k, k <> n -> m' k = m k) /\
  (forall k, updateLineNumberMarginVisibility env m' k = m' k) /\
  (forall k, onModified env 0 m k = m k).
Proof.
  cbn zeta. split; [|split; [|split; [|split]]].
  - intros En. unfold isMarginVisible. rewrite margin_visibility_at, En.
    destruct (m (MARGIN_LINE_NUMBERS env) <=? 0) eqn:E; lia.
  - intros En. rewrite margin_visibility_at, En. reflexivity.
  - intros k Hk. apply margin_visibility_other. exact Hk.
  - intros k. destruct (Z.eq_dec k (MARGIN_LINE_NUMBERS env)) as [->|Hk].
    + rewrite (margin_visibility_at env (updateLineNumberMarginVisibility _ _)).
      rewrite margin_visibility_at.
      destruct (lineNumbersEnabled env); [reflexivity|].
      destruct (m (MARGIN_LINE_NUMBERS env) <=? 0) eqn:E.
      * rewrite E. reflexivity.
      * reflexivity.
    + rewrite !margin_visibility_other by assumption. reflexivity.
  - intros k. reflexivity.
Qed.

End WidgetFacts.

Section StyleFacts.

Import Widgets.

Lemma apply_style_calls_app cs1 cs2 f :
  apply_style_calls (cs1 ++ cs2) f =
    apply_style_calls cs2 (apply_style_calls cs1 f).
Proof. unfold apply_style_calls. apply foldl_app. Qed.

(** A run of [styleSetFore] over the styles [a, a + n): each of them gets
    its colour, the others keep theirs. *)
Lemma apply_style_run (g : Z -> Z) a (n : nat) f k :
  apply_style_calls ((fun i => StyleSetFore i (g i)) <$> seqZ a (Z.of_nat n))
    f k =
    if (a <=? k) && (k <? a + Z.of_nat n) then g k else f k.
Proof.
  revert k. induction n as [|n IH]; intros k.
  - change (Z.of_nat 0) with 0. rewrite seqZ_nil by lia. cbn.
    replace ((a <=? k) && (k <? a + 0)) with false; [reflexivity|].
    symmetry. apply andb_false_iff. lia.
  - rewrite seqZ_S, fmap_app, apply_style_calls_app, Nat2Z.inj_succ.
    unfold apply_style_calls at 1. cbn [fmap list_fmap foldl].
    unfold apply_style_call at 1.
    destruct (Z.eqb_spec k (a + Z.of_nat n)) as [->|Hne].
    + replace ((a <=? a + Z.of_nat n)
               && (a + Z.of_nat n <? a + Z.succ (Z.of_nat n))) with true;
        [reflexivity|].
      symmetry. apply andb_true_iff.
      split; [apply Z.leb_le | apply Z.ltb_lt]; lia.
    + rewrite IH.
      destruct (a <=? k) eqn:E1; [|reflexivity]. cbn [andb].
      destruct (Z.ltb_spec k (a + Z.of_nat n));
        destruct (Z.ltb_spec k (a + Z.succ (Z.of_nat n)));
        try reflexivity; lia.
Qed.

(** X15: after [reloadLexer] style 0 and the predefined styles 32 to 39
    have the foreground 0 whatever the lexer is; with the null lexer every
    style from 0 to 255 has it; with another lexer every other style from 1
    to 255 has the colour drawn for it; styles outside of 0 to 255 keep
    their foreground, and the lexer handed in is the one stored. *)
Theorem X15_style_colours lexer grey random f :
  let r := reloadLexer lexer grey random in
  let f' := apply_style_calls r.2 f in
  r.1 = lexer /\
  f' 0 = 0 /\
  (forall i, STYLE_DEFAULT <= i <= STYLE_LASTPREDEFINED -> f' i = 0) /\
  (m_code lexer = SCLEX_NULL -> forall i, 0 <= i <= STYLE_MAX -> f' i = 0) /\
  (m_code lexer <> SCLEX_NULL ->
   forall i, 1 <= i < STYLE_DEFAULT \/ STYLE_LASTPREDEFINED < i <= STYLE_MAX ->
   f' i = random i) /\
  (forall i, i < 0 \/ STYLE_MAX < i -> f' i = f i).
Proof.
  cbn zeta. split; [reflexivity|].
  assert (Hf : forall k,
            apply_style_calls (reloadLexer lexer grey random).2 f k =
              if (1 <=? k) && (k <? 1 + 255)
              then loop_colour (m_code lexer) random k
              else if k =? 0 then 0 else f k).
  { intros k. unfold reloadLexer. cbn [snd].
    rewrite !apply_style_calls_app.
    change STYLE_MAX with (Z.of_nat 255).
    change (apply_style_calls [Colourise 0 (-1)] ?g) with g.
    rewrite apply_style_run. reflexivity. }
  unfold STYLE_DEFAULT, STYLE_LASTPREDEFINED, STYLE_MAX in *.
  split; [rewrite Hf; reflexivity|].
  split; [|split; [|split]].
  - intros i Hi. rewrite Hf.
    replace ((1 <=? i) && (i <? 1 + 255)) with true
      by (symmetry; apply andb_true_iff; lia).
    unfold loop_colour, STYLE_DEFAULT, STYLE_LASTPREDEFINED.
    replace ((i <? 32) || (i >? 39)) with false
      by (symmetry; apply orb_false_iff; lia).
    rewrite andb_false_r. reflexivity.
  - intros Hnull i Hi. rewrite Hf.
    destruct ((1 <=? i) && (i <? 1 + 255)) eqn:E.
    + unfold loop_colour. rewrite Hnull, Z.eqb_refl. reflexivity.
    + apply andb_false_iff in E.
      replace (i =? 0) with true by lia. reflexivity.
  - intros Hlex i Hi. rewrite Hf.
    replace ((1 <=? i) && (i <? 1 + 255)) with true
      by (symmetry; apply andb_true_iff; lia).
    unfold loop_colour, STYLE_DEFAULT, STYLE_LASTPREDEFINED.
    replace (m_code lexer =? SCLEX_NULL) with false
      by (symmetry; apply Z.eqb_neq; exact Hlex).
    replace ((i <? 32) || (i >? 39)) with true
      by (symmetry; apply orb_true_iff; lia).
    reflexivity.
  - intros i Hi. rewrite Hf.
    replace ((1 <=? i) && (i <? 1 + 255)) with false
      by (symmetry; apply andb_false_iff; lia).
    replace (i =? 0) with false by lia. reflexivity.
Qed.

End StyleFacts.
